(** * Bullish-signal screener (src/app.py): a shallow embedding

    The screener downloads price history per ticker, derives an Ichimoku
    cloud and a MACD oscillator with pandas, and reports the tickers whose
    latest close sits above the cloud on three timeframes while the daily
    MACD has just crossed above its signal line.

    Modelling choices, all taken from the code:
    - a pandas float cell is [option Qc]: [None] is NaN (what [pd.isna]
      tests), [Some q] a number.  Arithmetic on these cells is exact
      rational arithmetic;
    - whether the momentum cross fires depends on rounding, so the
      momentum columns and the cross are embedded a second time in IEEE 754
      binary64 ([spec_float], round to nearest even), following the loop
      that pandas runs for [ewm(..., adjust=False).mean()];
    - a [Series] is the list of its cells in index order, a [DataFrame] is a
      row count together with a finite map from column names to series;
    - a Python [str] is the string of its UTF-8 bytes (byte-wise
      lexicographic order coincides with code-point order);
    - an exception is a value of [exn]; code that may raise returns a
      [result]; [yf.download] is an injected provider and every call to it
      is appended to a call log threaded through the pipeline. *)

From Stdlib Require Import QArith Qcanon SpecFloat.
From Stdlib Require Import Ascii OrderedTypeEx.
From stdpp Require Import gmap strings list fin_maps numbers sorting.

Open Scope Qc_scope.

(** ** Cells, series, frames *)

Record DataFrame := mkFrame {
  nrows : nat;
  columns : gmap string (list (option Qc))
}.

(** A Price Bar of the data model: the three fields the screener reads. *)
Record Bar := mkBar { High : Qc; Low : Qc; Close : Qc }.

(** The frame the provider hands over for a Price Series. *)
Definition frame_of (bars : list Bar) : DataFrame :=
  mkFrame (length bars)
    (<["High" := (Some ∘ High) <$> bars]>
     (<["Low" := (Some ∘ Low) <$> bars]>
      (<["Close" := (Some ∘ Close) <$> bars]> ∅))).

(** ** Exceptions *)

Inductive exn :=
  | KeyError (key : string)
  | IndexError
  | ProviderError (msg : string).

Inductive result (A : Type) :=
  | Ok (a : A)
  | Raise (e : exn).
Arguments Ok {A} a.
Arguments Raise {A} e.

#[global] Instance exn_eq_dec : EqDecision exn.
Proof. solve_decision. Defined.
#[global] Instance result_eq_dec {A} `{EqDecision A} : EqDecision (result A).
Proof. solve_decision. Defined.

#[global] Instance result_ret : MRet result := λ A, @Ok A.
#[global] Instance result_bind : MBind result := λ A B f r,
  match r with Ok a => f a | Raise e => Raise e end.

(** ** The pandas and Python primitives the code calls *)

(** [len(df)] and [df.empty] (an axis of length 0). *)
Definition len (df : DataFrame) : nat := nrows df.
Definition empty (df : DataFrame) : bool :=
  bool_decide (nrows df = 0%nat) || bool_decide (columns df = ∅).

(** [df[key]] and [df[key] = s]. *)
Definition getitem (df : DataFrame) (key : string) : result (list (option Qc)) :=
  match columns df !! key with
  | Some s => Ok s
  | None => Raise (KeyError key)
  end.
Definition setitem (df : DataFrame) (key : string) (s : list (option Qc)) : DataFrame :=
  mkFrame (nrows df) (<[key := s]> (columns df)).

(** [s.iloc[-k]] for [k >= 1]. *)
Definition iloc_neg (s : list (option Qc)) (k : nat) : result (option Qc) :=
  if decide (k ≤ length s)%nat then
    match s !! (length s - k)%nat with
    | Some v => Ok v
    | None => Raise IndexError
    end
  else Raise IndexError.

Definition isna (v : option Qc) : bool :=
  match v with None => true | Some _ => false end.

(** Float comparisons: anything compared with NaN is false. *)
Definition gt (a b : option Qc) : bool :=
  match a, b with
  | Some x, Some y => bool_decide (y < x)
  | _, _ => false
  end.
Definition le (a b : option Qc) : bool :=
  match a, b with
  | Some x, Some y => bool_decide (x ≤ y)
  | _, _ => false
  end.

(** Python's builtin [max(a, b)]: keeps [a] unless [b > a]. *)
Definition py_max (a b : option Qc) : option Qc := if gt b a then b else a.

(** Element-wise series arithmetic; NaN propagates. *)
Definition cell_add (a b : option Qc) : option Qc :=
  x ← a; y ← b; Some (x + y).
Definition cell_sub (a b : option Qc) : option Qc :=
  x ← a; y ← b; Some (x - y).
Definition cell_half (a : option Qc) : option Qc :=
  x ← a; Some (x / 2).
Definition series_add (a b : list (option Qc)) := zip_with cell_add a b.
Definition series_sub (a b : list (option Qc)) := zip_with cell_sub a b.
Definition series_half (a : list (option Qc)) := cell_half <$> a.

(** [s.rolling(w).max()] and [.min()]: the aggregate of the [w] cells
    ending at the current one; NaN until [w] cells are there and whenever
    one of them is NaN (min_periods defaults to the window). *)
Definition Qcmax (x y : Qc) : Qc := if bool_decide (x ≤ y) then y else x.
Definition Qcmin (x y : Qc) : Qc := if bool_decide (x ≤ y) then x else y.

Definition fold1 (agg : Qc → Qc → Qc) (vs : list Qc) : option Qc :=
  match vs with
  | [] => None
  | v :: vs => Some (foldl agg v vs)
  end.

Definition window (w i : nat) (s : list (option Qc)) : option (list (option Qc)) :=
  if decide (w ≤ S i)%nat then Some (take w (drop (S i - w) s)) else None.

Definition rolling (agg : Qc → Qc → Qc) (w : nat) (s : list (option Qc))
  : list (option Qc) :=
  imap (λ i _, win ← window w i s; vs ← mapM id win; fold1 agg vs) s.

Definition rolling_max := rolling Qcmax.
Definition rolling_min := rolling Qcmin.

(** [s.shift(n)] for [n >= 0]: [n] NaN cells enter at the front, the last
    [n] cells fall off, the length stays. *)
Definition shift (n : nat) (s : list (option Qc)) : list (option Qc) :=
  take (length s) (replicate n None ++ s).

(** [s.ewm(span=span, adjust=False).mean()], with pandas' defaults
    [ignore_na=False] and [min_periods=0]: the first cell seeds the
    average; each later observation [c] replaces the average [y] by
    [(ow * y + alpha * c) / (ow + alpha)], where [alpha = 2/(span+1)] and
    [ow] is [(1 - alpha)] raised to the number of rows since the previous
    observation; a NaN cell leaves the average as it is.  (pandas skips
    the update when [c] equals [y]; in exact arithmetic the update gives
    [y] there anyway.) *)
Definition alpha (span : nat) : Qc := 2 / (Qc_of_Z (Z.of_nat span) + 1).

Fixpoint ewm_go (al : Qc) (weighted : option Qc) (old_wt : Qc)
    (vals : list (option Qc)) : list (option Qc) :=
  match vals with
  | [] => []
  | cur :: rest =>
      match weighted with
      | Some y =>
          let ow := old_wt * (1 - al) in
          match cur with
          | Some c =>
              let y' := Some ((ow * y + al * c) / (ow + al)) in
              y' :: ewm_go al y' 1 rest
          | None => weighted :: ewm_go al weighted ow rest
          end
      | None => cur :: ewm_go al cur old_wt rest
      end
  end.

Definition ewm_mean (span : nat) (vals : list (option Qc)) : list (option Qc) :=
  match vals with
  | [] => []
  | v0 :: rest => v0 :: ewm_go (alpha span) v0 1 rest
  end.

(** ** The indicator engine (app.py, lines 20-39) *)

Definition add_ichimoku (df : DataFrame) : result DataFrame :=
  h ← getitem df "High";
  let high9 := rolling_max 9 h in
  l ← getitem df "Low";
  let low9 := rolling_min 9 l in
  let df := setitem df "Tenkan" (series_half (series_add high9 low9)) in
  h ← getitem df "High";
  let high26 := rolling_max 26 h in
  l ← getitem df "Low";
  let low26 := rolling_min 26 l in
  let df := setitem df "Kijun" (series_half (series_add high26 low26)) in
  tenkan ← getitem df "Tenkan";
  kijun ← getitem df "Kijun";
  let df := setitem df "Senkou_A" (shift 26 (series_half (series_add tenkan kijun))) in
  h ← getitem df "High";
  l ← getitem df "Low";
  let df := setitem df "Senkou_B"
              (shift 26 (series_half (series_add (rolling_max 52 h) (rolling_min 52 l)))) in
  Ok df.

Definition add_macd_with (fast slow signal : nat) (df : DataFrame) : result DataFrame :=
  c ← getitem df "Close";
  let ema_fast := ewm_mean fast c in
  c ← getitem df "Close";
  let ema_slow := ewm_mean slow c in
  let df := setitem df "MACD" (series_sub ema_fast ema_slow) in
  m ← getitem df "MACD";
  let df := setitem df "MACD_Signal" (ewm_mean signal m) in
  Ok df.

Definition add_macd : DataFrame → result DataFrame := add_macd_with 12 26 9.

(** ** The cloud-position evaluator (app.py, lines 42-49) *)

Definition is_above_cloud (df : DataFrame) : result bool :=
  if decide (len df < 100)%nat then Ok false
  else
    df ← add_ichimoku df;
    sa ← getitem df "Senkou_A";
    a ← iloc_neg sa 1;
    if isna a then Ok false
    else
      sb ← getitem df "Senkou_B";
      b ← iloc_neg sb 1;
      if isna b then Ok false
      else
        sa ← getitem df "Senkou_A";
        a ← iloc_neg sa 1;
        sb ← getitem df "Senkou_B";
        b ← iloc_neg sb 1;
        let cloud_top := py_max a b in
        cl ← getitem df "Close";
        c ← iloc_neg cl 1;
        Ok (gt c cloud_top).

(** ** The daily momentum tests (app.py, lines 61 and 64-65) *)

(** [pd.isna(daily_data['MACD'].iloc[-1])] *)
Definition macd_undefined (df : DataFrame) : result bool :=
  m ← getitem df "MACD";
  v ← iloc_neg m 1;
  Ok (isna v).

(** [(MACD.iloc[-2] <= MACD_Signal.iloc[-2]) and (MACD.iloc[-1] > MACD_Signal.iloc[-1])] *)
Definition macd_cross (df : DataFrame) : result bool :=
  m ← getitem df "MACD";
  m2 ← iloc_neg m 2;
  s ← getitem df "MACD_Signal";
  s2 ← iloc_neg s 2;
  if le m2 s2 then
    m ← getitem df "MACD";
    m1 ← iloc_neg m 1;
    s ← getitem df "MACD_Signal";
    s1 ← iloc_neg s 1;
    Ok (gt m1 s1)
  else Ok false.

(** ** The momentum columns in binary64 (app.py, lines 34-39 and 64-65)

    Whether the momentum cross fires depends on the last bit of the
    oscillator and of its signal, so for the cross the columns are also
    embedded cell by cell as pandas computes them: a cell is an IEEE 754
    binary64 value ([spec_float] at precision 53 with exponents up to
    1024; NaN is [S754_nan]) and every operation rounds to nearest, ties
    to even. *)

Definition f64_add : spec_float → spec_float → spec_float := SFadd 53 1024.
Definition f64_sub : spec_float → spec_float → spec_float := SFsub 53 1024.
Definition f64_mul : spec_float → spec_float → spec_float := SFmul 53 1024.
Definition f64_div : spec_float → spec_float → spec_float := SFdiv 53 1024.

(** The binary64 value nearest to [m * 2^e]. *)
Definition f64 (m e : Z) : spec_float := binary_normalize 53 1024 m e false.

(** pandas turns the span into a centre of mass, [com = (span - 1) / 2],
    and the smoothing loop starts with [alpha = 1. / (1. + com)]. *)
Definition alpha64 (span : nat) : spec_float :=
  let com := f64_div (f64 (Z.of_nat span - 1) 0) (f64 2 0) in
  f64_div (f64 1 0) (f64_add (f64 1 0) com).

(** The loop of [ewm(span=span, adjust=False).mean()]: [old_wt] is
    multiplied by [1. - alpha] on every row; an observation [cur] that
    differs from the average [weighted] replaces it by
    [(old_wt * weighted + alpha * cur) / (old_wt + alpha)] and resets
    [old_wt] to 1; an observation equal to the average leaves it as it is;
    a NaN cell leaves the average as it is; a NaN average takes the cell.
    A cell is an observation when it equals itself, that is, when it is
    not NaN. *)
Definition is_observation (x : spec_float) : bool := SFeqb x x.

Fixpoint ewm_go64 (al weighted old_wt : spec_float) (vals : list spec_float)
    : list spec_float :=
  match vals with
  | [] => []
  | cur :: rest =>
      if is_observation weighted then
        let ow := f64_mul old_wt (f64_sub (f64 1 0) al) in
        if is_observation cur then
          let w :=
            if SFeqb weighted cur then weighted
            else f64_div (f64_add (f64_mul ow weighted) (f64_mul al cur))
                         (f64_add ow al) in
          w :: ewm_go64 al w (f64 1 0) rest
        else weighted :: ewm_go64 al weighted ow rest
      else cur :: ewm_go64 al cur old_wt rest
  end.

Definition ewm_mean64 (span : nat) (vals : list spec_float) : list spec_float :=
  match vals with
  | [] => []
  | v0 :: rest => v0 :: ewm_go64 (alpha64 span) v0 (f64 1 0) rest
  end.

(** The [MACD] and [MACD_Signal] columns that [add_macd] derives from the
    [Close] column. *)
Definition macd_of64 (c : list spec_float) : list spec_float :=
  zip_with f64_sub (ewm_mean64 12 c) (ewm_mean64 26 c).
Definition signal_of64 (c : list spec_float) : list spec_float :=
  ewm_mean64 9 (macd_of64 c).

(** [s.iloc[-k]] for [k >= 1]. *)
Definition iloc_neg64 (s : list spec_float) (k : nat) : result spec_float :=
  if decide (k ≤ length s)%nat then
    match s !! (length s - k)%nat with
    | Some v => Ok v
    | None => Raise IndexError
    end
  else Raise IndexError.

(** [(MACD.iloc[-2] <= MACD_Signal.iloc[-2]) and (MACD.iloc[-1] > MACD_Signal.iloc[-1])] *)
Definition macd_cross64 (m s : list spec_float) : result bool :=
  m2 ← iloc_neg64 m 2;
  s2 ← iloc_neg64 s 2;
  if SFleb m2 s2 then
    m1 ← iloc_neg64 m 1;
    s1 ← iloc_neg64 s 1;
    Ok (SFltb s1 m1)
  else Ok false.

(** ** The pipeline monad: a call log and exceptions *)

(** One [yf.download(ticker, period=.., interval=..)] call. *)
Record call := mkCall { c_ticker : string; c_period : string; c_interval : string }.

#[global] Instance call_eq_dec : EqDecision call.
Proof. solve_decision. Defined.

Definition M (A : Type) : Type := list call → result A * list call.

#[global] Instance M_ret : MRet M := λ A a log, (Ok a, log).
#[global] Instance M_bind : MBind M := λ A B f m log,
  match m log with
  | (Ok a, log') => f a log'
  | (Raise e, log') => (Raise e, log')
  end.

(** A computation that touches no provider. *)
Definition lift {A} (r : result A) : M A := λ log, (r, log).

(** [try: body except Exception: handler] *)
Definition try_except {A} (body : M A) (handler : exn → M A) : M A := λ log,
  match body log with
  | (Ok a, log') => (Ok a, log')
  | (Raise e, log') => handler e log'
  end.

Section Pipeline.

(** The market-data provider: what [yf.download] answers for a ticker,
    a period and an interval (a frame, possibly empty, or an exception). *)
Variable fetch : string → string → string → result DataFrame.

Definition download (ticker period interval : string) : M DataFrame := λ log,
  (fetch ticker period interval, log ++ [mkCall ticker period interval]).

(** ** The per-ticker decision pipeline (app.py, lines 52-83) *)

Definition is_bullish_body (ticker : string) : M bool :=
  daily_data ← download ticker "3y" "1d";
  if empty daily_data || bool_decide (len daily_data < 100)%nat then mret false
  else
    above_daily ← lift (is_above_cloud daily_data);
    daily_data ← lift (add_macd daily_data);
    na ← lift (macd_undefined daily_data);
    if (na : bool) then mret false
    else
      cross ← lift (macd_cross daily_data);
      if negb (above_daily && cross) then mret false
      else
        hourly_data ← download ticker "730d" "60m";
        min_data ← download ticker "7d" "1m";
        if empty hourly_data || empty min_data then mret false
        else
          above_hourly ← lift (is_above_cloud hourly_data);
          above_min ← lift (is_above_cloud min_data);
          mret (above_hourly && above_min).

Definition is_bullish (ticker : string) : M bool :=
  try_except (is_bullish_body ticker) (λ _, mret false).

End Pipeline.

(** ** The ticker universe (app.py, lines 11-17) *)

(** [s.replace(old, new)] for one-character [old] and [new]. *)
Fixpoint str_replace (old new : ascii) (s : string) : string :=
  match s with
  | EmptyString => EmptyString
  | String c rest =>
      String (if Ascii.eqb c old then new else c) (str_replace old new rest)
  end.

(** Symbol normalization: the expression applied to every raw symbol. *)
Definition normalize (ticker : string) : string :=
  str_replace "."%char "-"%char ticker.

(** [symbols] is the [Symbol] column of the constituents table. *)
Definition get_sp500_tickers (symbols : list string) : list string :=
  normalize <$> symbols.

(** ** The scan coordinator (app.py, lines 86-118) *)

(** The fields of the report that the scan determines; the timestamp and
    the two report texts built from the clock are left out. *)
Record ScanResult := mkScan {
  bullish_stocks : list string;
  bullish_stocks_str : string;
  count : nat;
  total_scanned : nat
}.

(** Python's [<=] on [str]. *)
Definition str_le (a b : string) : Prop := String.leb a b = true.

#[global] Instance str_le_dec : RelDecision str_le.
Proof. intros a b. unfold str_le. apply _. Defined.

Section Scan.

Variable fetch : string → string → string → result DataFrame.

(** What [future.result()] gives for the task [is_bullish(ticker)]: each
    task starts from its own empty call log. *)
Definition future_result (ticker : string) : result bool :=
  (is_bullish fetch ticker []).1.

(** [future_to_ticker], in submission order. *)
Definition submit_all (tickers : list string) : list (result bool * string) :=
  (λ t, (future_result t, t)) <$> tickers.

(** [as_completed] yields the futures in the order the workers finish;
    [order] lists the submission indices in that order. *)
Definition as_completed {A} (order : list nat) (futures : list A) : list A :=
  omap (λ i, futures !! i) order.

(** The loop of lines 93-95: [future.result()] re-raises what the task
    raised; a true verdict appends the ticker to [bullish_stocks]. *)
Fixpoint collect (done : list (result bool * string)) (acc : list string)
    : result (list string) :=
  match done with
  | [] => Ok acc
  | (r, t) :: rest =>
      b ← r;
      collect rest (if (b : bool) then acc ++ [t] else acc)
  end.

Definition screen (symbols : list string) (order : list nat) : result ScanResult :=
  let tickers := get_sp500_tickers symbols in
  found ← collect (as_completed order (submit_all tickers)) [];
  let found := merge_sort str_le found in
  Ok (mkScan found
             (match found with [] => "" | _ => String.concat ", " found end)
             (length found)
             (length tickers)).

End Scan.

(** ** Vocabulary for the statements *)

(** The four cloud columns as [add_ichimoku] computes them from the [High]
    and [Low] columns. *)
Definition tenkan_of (h l : list (option Qc)) :=
  series_half (series_add (rolling_max 9 h) (rolling_min 9 l)).
Definition kijun_of (h l : list (option Qc)) :=
  series_half (series_add (rolling_max 26 h) (rolling_min 26 l)).
Definition senkou_a_of (h l : list (option Qc)) :=
  shift 26 (series_half (series_add (tenkan_of h l) (kijun_of h l))).
Definition senkou_b_of (h l : list (option Qc)) :=
  shift 26 (series_half (series_add (rolling_max 52 h) (rolling_min 52 l))).

(** A frame that carries the three price columns, one cell per row (cells
    may be NaN).  Every [frame_of bars] is one. *)
Definition price_frame (df : DataFrame) : Prop :=
  ∀ key, key ∈ ["High"; "Low"; "Close"] →
    ∃ s, columns df !! key = Some s ∧ length s = nrows df.

(** The cell at row [i] of a series is a number. *)
Definition defined_at (s : list (option Qc)) (i : nat) : Prop :=
  ∃ v, s !! i = Some (Some v).

(** A column of numbers, as a series. *)
Definition numbers (xs : list Qc) : list (option Qc) := Some <$> xs.

(** The [High] / [Low] / [Close] fields of a Price Series. *)
Definition highs (bars : list Bar) : list Qc := High <$> bars.
Definition lows (bars : list Bar) : list Qc := Low <$> bars.
Definition closes (bars : list Bar) : list Qc := Close <$> bars.

(** A series of [n] identical bars. *)
Definition flat (n : nat) (h l c : Qc) : list Bar := replicate n (mkBar h l c).

(** The three provider calls of the pipeline. *)
Definition daily_call (ticker : string) : call := mkCall ticker "3y" "1d".
Definition hourly_call (ticker : string) : call := mkCall ticker "730d" "60m".
Definition minute_call (ticker : string) : call := mkCall ticker "7d" "1m".

(** Lines 56-68 of [is_bullish] on a fetched daily frame: [Ok true] when
    control goes on to the hourly and minute downloads, [Ok false] when one
    of the three [return False] is taken, [Raise] when a step raises. *)
Definition daily_stage (daily : DataFrame) : result bool :=
  if empty daily || bool_decide (len daily < 100)%nat then Ok false
  else
    above_daily ← is_above_cloud daily;
    dm ← add_macd daily;
    na ← macd_undefined dm;
    if (na : bool) then Ok false
    else
      cross ← macd_cross dm;
      Ok (above_daily && cross).

(** Lines 74-80 on the two fetched intraday frames. *)
Definition intraday_stage (hourly minute : DataFrame) : result bool :=
  if empty hourly || empty minute then Ok false
  else
    above_hourly ← is_above_cloud hourly;
    above_min ← is_above_cloud minute;
    Ok (above_hourly && above_min).

(** The daily check of the pipeline passes: the frame is non-empty with
    at least 100 rows, the close is above the daily cloud, the latest
    oscillator is a number and the momentum cross holds. *)
Definition daily_check_passes (daily : DataFrame) : Prop :=
  empty daily = false ∧ (100 ≤ len daily)%nat
  ∧ is_above_cloud daily = Ok true
  ∧ ∃ dm, add_macd daily = Ok dm
          ∧ macd_undefined dm = Ok false ∧ macd_cross dm = Ok true.

(** The oscillator and signal columns as [add_macd] computes them from the
    [Close] column. *)
Definition macd_of (c : list (option Qc)) : list (option Qc) :=
  series_sub (ewm_mean 12 c) (ewm_mean 26 c).
Definition signal_of (c : list (option Qc)) : list (option Qc) :=
  ewm_mean 9 (macd_of c).

(** Exponential smoothing in the spec's words, on a column of numbers:
    seeded by the first value, each new value blends the previous smoothed
    value with the new observation with weight [al]. *)
Fixpoint ema_go (al y : Qc) (xs : list Qc) : list Qc :=
  match xs with
  | [] => []
  | c :: xs => let y' := (1 - al) * y + al * c in y' :: ema_go al y' xs
  end.
Definition ema (al : Qc) (xs : list Qc) : list Qc :=
  match xs with
  | [] => []
  | x :: xs => x :: ema_go al x xs
  end.

(** The oscillator and the signal of a Price Series, as numbers. *)
Definition oscillator (bars : list Bar) : list Qc :=
  zip_with Qcminus (ema (alpha 12) (closes bars)) (ema (alpha 26) (closes bars)).
Definition signal_line (bars : list Bar) : list Qc :=
  ema (alpha 9) (oscillator bars).

(** The momentum cross as the pipeline would evaluate it on the day the
    series had its first [n] bars. *)
Definition fires (bars : list Bar) (n : nat) : Prop :=
  (dm ← add_macd (frame_of (take n bars)); macd_cross dm) = Ok true.

(** The momentum cross as the pipeline evaluates it on the day the daily
    series has its first [n] closes. *)
Definition fires64 (c : list spec_float) (n : nat) : Prop :=
  macd_cross64 (macd_of64 (take n c)) (signal_of64 (take n c)) = Ok true.

(** On bar [i] the oscillator is at or below its signal / strictly above
    its signal (both false when one of the two cells is NaN). *)
Definition at_or_below64 (c : list spec_float) (i : nat) : bool :=
  match macd_of64 c !! i, signal_of64 c !! i with
  | Some m, Some s => SFleb m s
  | _, _ => false
  end.
Definition above64 (c : list spec_float) (i : nat) : bool :=
  match macd_of64 c !! i, signal_of64 c !! i with
  | Some m, Some s => SFltb s m
  | _, _ => false
  end.

(** A column that never falls from one row to the next. *)
Definition non_decreasing64 (m : list spec_float) : Prop :=
  Sorted (λ x y, SFleb x y = true) m.

(** ** Sample data for the examples *)

(** 99 identical bars, then a bar that closes higher. *)
Definition rising : list Bar := flat 99 1 1 1 ++ [mkBar 2 1 2].

(** A frame of 100 rows that lacks the [High] column. *)
Definition no_high_frame : DataFrame :=
  mkFrame 100
    (<["Low" := replicate 100 (Some 1)]>
     (<["Close" := replicate 100 (Some 1)]> ∅)).

(** The provider of the spec's example: AAA has qualifying history on
    every timeframe, every other ticker comes back empty. *)
Definition example_fetch (ticker period interval : string) : result DataFrame :=
  if String.eqb ticker "AAA" then Ok (frame_of rising) else Ok (frame_of []).

(** A provider that fails on every call. *)
Definition failing_fetch (ticker period interval : string) : result DataFrame :=
  Raise (ProviderError "no data").

(** A provider whose daily history is fine and whose frames on the intraday
    timeframes are malformed. *)
Definition malformed_intraday_fetch (ticker period interval : string)
    : result DataFrame :=
  if String.eqb period "3y" then Ok (frame_of rising) else Ok no_high_frame.

(** Four bars on which the oscillator rises and never falls. *)
Definition ramp_closes : list Bar :=
  [mkBar 1 1 1; mkBar 1 1 1; mkBar 2 2 2; mkBar 2 2 2].

(** Closes that rise by half a unit per bar, starting at 100. *)
Definition steady_climb (n : nat) : list spec_float :=
  (λ t, f64 (200 + Z.of_nat t) (-1)) <$> seq 0 n.

(** Closes on the grid of the smallest binary64 step, [2^-1074]. *)
Definition tiny_closes : list spec_float :=
  (λ k, f64 k (-1074)) <$> [0; 5; 5; 10; 15; 15; 18]%Z.

(** Four closes: two at 1, then two at 2. *)
Definition step_closes : list spec_float := [f64 1 0; f64 1 0; f64 2 0; f64 2 0].

(** A frame of 100 rows with highs and lows and no number in [Close]. *)
Definition nan_close_frame : DataFrame :=
  mkFrame 100
    (<["High" := replicate 100 (Some 1)]>
     (<["Low" := replicate 100 (Some 1)]>
      (<["Close" := replicate 100 None]> ∅))).

(** A provider whose daily history has no number in [Close]. *)
Definition nan_close_fetch (ticker period interval : string) : result DataFrame :=
  Ok nan_close_frame.

(** ** Vocabulary for the further properties *)

(** The columns that [add_ichimoku] and [add_macd] write. *)
Definition cloud_columns : list string :=
  ["Tenkan"; "Kijun"; "Senkou_A"; "Senkou_B"].
Definition momentum_columns : list string := ["MACD"; "MACD_Signal"].

(** A frame of 100 rows with highs and lows and no [Close] column. *)
Definition no_close_frame : DataFrame :=
  mkFrame 100
    (<["High" := replicate 100 (Some 1)]>
     (<["Low" := replicate 100 (Some 1)]> ∅)).

(** [hi] is the highest high and [lo] the lowest low of the [w] bars that
    end at row [i]. *)
Definition extremes_of_window (w : nat) (bars : list Bar) (i : nat) (hi lo : Qc)
    : Prop :=
  let win := take w (drop (S i - w) bars) in
  hi ∈ High <$> win ∧ (∀ b, b ∈ win → High b ≤ hi)
  ∧ lo ∈ Low <$> win ∧ (∀ b, b ∈ win → lo ≤ Low b).

(** The character [ch] does not occur in [s]. *)
Definition lacks (ch : ascii) (s : string) : Prop :=
  ∀ n, String.get n s ≠ Some ch.

(** * Properties *)

(** Closed equations between computed values are decided by evaluation
    (two equal [Qc] numbers may carry different canonicity proofs, so the
    comparison goes through the decision procedure). *)
Ltac by_evaluation := apply (bool_decide_unpack _); vm_compute; exact I.

#[local] Arguments getitem : simpl never.
#[local] Arguments iloc_neg : simpl never.
#[local] Arguments is_above_cloud : simpl never.
#[local] Arguments add_ichimoku : simpl never.
#[local] Arguments add_macd : simpl never.
#[local] Arguments macd_cross : simpl never.
#[local] Arguments macd_undefined : simpl never.
#[local] Arguments empty : simpl never.

(** ** Order on strings *)

Lemma str_le_alt a b : str_le a b ↔ a = b ∨ String_as_OT.lt a b.
Proof.
  unfold str_le, String.leb.
  change (a ?= b)%string with (String_as_OT.cmp a b).
  destruct (String_as_OT.cmp a b) eqn:E.
  - apply String_as_OT.cmp_eq in E. tauto.
  - apply String_as_OT.cmp_lt in E. tauto.
  - split; [done|]. intros [->| H].
    + assert (String_as_OT.cmp b b = Eq) by by apply String_as_OT.cmp_eq.
      congruence.
    + apply String_as_OT.cmp_lt in H. congruence.
Qed.

#[global] Instance str_le_trans : Transitive str_le.
Proof.
  intros a b c. rewrite !str_le_alt. intros [->|H1] [->|H2]; auto.
  right. by eapply String_as_OT.lt_trans.
Qed.

#[global] Instance str_le_antisym : AntiSymm eq str_le.
Proof. intros a b. apply String.leb_antisym. Qed.

#[global] Instance str_le_total : Total str_le.
Proof. intros a b. apply String.leb_total. Qed.

Lemma sort_perm_eq (l1 l2 : list string) :
  l1 ≡ₚ l2 → merge_sort str_le l1 = merge_sort str_le l2.
Proof.
  intros H. apply (Sorted_unique str_le); try apply _.
  - apply Sorted_merge_sort, _.
  - apply Sorted_merge_sort, _.
  - by rewrite !merge_sort_Permutation.
Qed.

Lemma omap_lookup_seq {A} (pre l : list A) :
  omap (λ i, (pre ++ l) !! i) (seq (length pre) (length l)) = l.
Proof.
  revert pre. induction l as [|x l IH]; intros pre; [done|].
  simpl. rewrite list_lookup_middle by done. f_equal.
  specialize (IH (pre ++ [x])).
  rewrite length_app, Nat.add_1_r, <- (assoc_L (++)) in IH. done.
Qed.

Lemma as_completed_perm {A} (order : list nat) (futures : list A) :
  order ≡ₚ seq 0 (length futures) → as_completed order futures ≡ₚ futures.
Proof.
  intros H. unfold as_completed. rewrite H.
  pose proof (omap_lookup_seq [] futures) as E. simpl in E. by rewrite E.
Qed.

(** ** C9: symbol normalization *)

Lemma str_replace_get old new s n :
  String.get n (str_replace old new s)
  = (λ c, if Ascii.eqb c old then new else c) <$> String.get n s.
Proof.
  revert n. induction s as [|c s IH]; intros [|n]; simpl; auto.
Qed.

Lemma str_replace_idem old new s :
  old ≠ new → str_replace old new (str_replace old new s) = str_replace old new s.
Proof.
  intros Hne. induction s as [|c s IH]; simpl; [done|]. rewrite IH. f_equal.
  destruct (Ascii.eqb c old) eqn:E; [|by rewrite E].
  destruct (Ascii.eqb new old) eqn:E'; [|done].
  apply Ascii.eqb_eq in E'. congruence.
Qed.

Lemma str_replace_absent old new s :
  (∀ n, String.get n s ≠ Some old) → str_replace old new s = s.
Proof.
  induction s as [|c s IH]; intros H; simpl; [done|]. f_equal.
  - destruct (Ascii.eqb c old) eqn:E; [|done].
    apply Ascii.eqb_eq in E. subst. by destruct (H 0%nat).
  - apply IH. intros n. apply (H (S n)).
Qed.

(** C9. Normalization maps the character ['.'] to ['-'] at every position
    and leaves every other character (and the length) as it is; normalizing
    a second time changes nothing; a symbol without ['.'] is returned
    unchanged. *)
Theorem normalize_replaces_and_idempotent (s : string) :
  (∀ n, String.get n (normalize s)
        = (λ c, if Ascii.eqb c "."%char then "-"%char else c) <$> String.get n s)
  ∧ String.length (normalize s) = String.length s
  ∧ (∀ n, String.get n (normalize s) ≠ Some "."%char)
  ∧ normalize (normalize s) = normalize s
  ∧ ((∀ n, String.get n s ≠ Some "."%char) → normalize s = s).
Proof.
  unfold normalize. split_and!.
  - intros n. apply str_replace_get.
  - induction s; simpl; auto.
  - intros n. rewrite str_replace_get.
    destruct (String.get n s) as [c|]; simpl; [|done].
    destruct (Ascii.eqb c ".") eqn:E; [done|].
    intros [= ->]. done.
  - by apply str_replace_idem.
  - apply str_replace_absent.
Qed.

Lemma normalize_replaces_and_idempotent_witness :
  normalize (normalize "BRK.B") = normalize "BRK.B" ∧ normalize "AAPL" = "AAPL".
Proof.
  split.
  - apply (normalize_replaces_and_idempotent "BRK.B").
  - apply (normalize_replaces_and_idempotent "AAPL").
    intros n. do 4 (destruct n as [|n]; [discriminate|]). discriminate.
Defined.

Example normalize_brk_b : normalize "BRK.B" = "BRK-B"
  ∧ normalize (normalize "BRK.B") = "BRK-B" ∧ normalize "AAPL" = "AAPL".
Proof. repeat split. Qed.

(** ** The cloud columns *)

Lemma add_ichimoku_columns df h l :
  columns df !! "High" = Some h → columns df !! "Low" = Some l →
  add_ichimoku df =
    Ok (mkFrame (nrows df)
          (<["Senkou_B" := senkou_b_of h l]>
           (<["Senkou_A" := senkou_a_of h l]>
            (<["Kijun" := kijun_of h l]>
             (<["Tenkan" := tenkan_of h l]> (columns df)))))).
Proof.
  intros Hh Hl. unfold add_ichimoku, getitem, setitem. simpl.
  rewrite Hh. simpl. rewrite Hl. simpl.
  simplify_map_eq. simpl. simplify_map_eq. simpl. done.
Qed.

Lemma mapM_id_Some (xs : list Qc) : mapM id (Some <$> xs) = Some xs.
Proof. apply mapM_fmap_Forall_Some, Forall_true. done. Qed.

Lemma rolling_lookup agg w (s : list (option Qc)) i :
  rolling agg w s !! i
  = (λ _, win ← window w i s; vs ← mapM id win; fold1 agg vs) <$> s !! i.
Proof. unfold rolling. by rewrite list_lookup_imap. Qed.

Lemma length_rolling agg w s : length (rolling agg w s) = length s.
Proof. unfold rolling. by rewrite length_imap. Qed.

Lemma length_shift n s : length (shift n s) = length s.
Proof. unfold shift. rewrite length_take, length_app. lia. Qed.

Lemma shift_lookup n s i :
  shift n s !! i =
    if decide (i < length s)%nat then
      if decide (i < n)%nat then Some None else s !! (i - n)%nat
    else None.
Proof.
  unfold shift. case_decide as Hi.
  - rewrite lookup_take_lt by done. case_decide as Hn.
    + rewrite lookup_app_l by (by rewrite length_replicate).
      by apply lookup_replicate_2.
    + rewrite lookup_app_r by (rewrite length_replicate; lia).
      by rewrite length_replicate.
  - apply lookup_ge_None. rewrite length_take, length_app. lia.
Qed.

Lemma frame_of_columns bars :
  columns (frame_of bars) !! "High" = Some (numbers (highs bars))
  ∧ columns (frame_of bars) !! "Low" = Some (numbers (lows bars))
  ∧ columns (frame_of bars) !! "Close" = Some (numbers (closes bars)).
Proof.
  unfold frame_of, numbers, highs, lows, closes. simpl.
  rewrite <- !list_fmap_compose. by simplify_map_eq.
Qed.

Lemma frame_of_price_frame bars : price_frame (frame_of bars).
Proof.
  destruct (frame_of_columns bars) as (Hh & Hl & Hc).
  intros key Hkey. 
  repeat (apply elem_of_cons in Hkey as [->|Hkey]);
    [eexists; split; [eassumption|] ..|by apply elem_of_nil in Hkey];
    unfold numbers, highs, lows, closes; by rewrite !length_fmap.
Qed.

Lemma fold1_is_Some agg vs : vs ≠ [] → is_Some (fold1 agg vs).
Proof. destruct vs; [done|]. by eexists. Qed.

Lemma rolling_numbers_lookup agg w xs i :
  (i < length xs)%nat →
  rolling agg w (numbers xs) !! i
  = Some (if decide (w ≤ S i)%nat then fold1 agg (take w (drop (S i - w) xs))
          else None).
Proof.
  intros Hi. rewrite rolling_lookup. unfold numbers.
  destruct (lookup_lt_is_Some_2 xs i Hi) as [x Hx].
  rewrite list_lookup_fmap, Hx. simpl. f_equal.
  unfold window. case_decide; [|done]. simpl.
  by rewrite <- fmap_drop, <- fmap_take, mapM_id_Some.
Qed.

Lemma rolling_numbers_defined agg w xs i :
  (0 < w)%nat →
  defined_at (rolling agg w (numbers xs)) i ↔ (w ≤ S i ∧ i < length xs)%nat.
Proof.
  intros Hw. unfold defined_at. split.
  - intros [v Hv].
    assert (i < length xs)%nat as Hi.
    { apply lookup_lt_Some in Hv.
      unfold numbers in Hv. by rewrite length_rolling, length_fmap in Hv. }
    rewrite rolling_numbers_lookup in Hv by done.
    case_decide; [done|]. by simplify_eq.
  - intros [Hwi Hi]. rewrite rolling_numbers_lookup by done.
    rewrite decide_True by done.
    destruct (fold1_is_Some agg (take w (drop (S i - w) xs))) as [v ->]; [|eauto].
    intros E. apply (f_equal length) in E. 
    rewrite length_take, length_drop in E. simpl in E. lia.
Qed.

Lemma series_add_defined a b i :
  defined_at (series_add a b) i ↔ defined_at a i ∧ defined_at b i.
Proof.
  unfold defined_at, series_add. rewrite lookup_zip_with.
  destruct (a !! i) as [[x|]|], (b !! i) as [[y|]|]; simpl;
    (split; [intros [v [=]]|intros [[v [=]] [v' [=]]]]); eauto.
Qed.

Lemma series_half_defined a i :
  defined_at (series_half a) i ↔ defined_at a i.
Proof.
  unfold defined_at, series_half. rewrite list_lookup_fmap.
  destruct (a !! i) as [[x|]|]; simpl; (split; intros [v [=]]); eauto.
Qed.

Lemma shift_defined n s i :
  defined_at (shift n s) i ↔ (n ≤ i ∧ i < length s)%nat ∧ defined_at s (i - n).
Proof.
  unfold defined_at. rewrite shift_lookup.
  repeat case_decide.
  - split; [intros [v [=]]|intros [[] _]; lia].
  - split; [eauto with lia|by intros [_ ?]].
  - split; [intros [v [=]]|intros [[] _]; lia].
Qed.

Lemma undefined_iff s i :
  (i < length s)%nat → s !! i = Some None ↔ ¬ defined_at s i.
Proof.
  intros Hi. unfold defined_at.
  destruct (lookup_lt_is_Some_2 s i Hi) as [[v|] ->].
  - split; [done|]. intros []. eauto.
  - split; [|done]. by intros _ [v [=]].
Qed.

Lemma length_series_add a b :
  length (series_add a b) = (length a `min` length b)%nat.
Proof. apply length_zip_with. Qed.

Lemma length_series_half a : length (series_half a) = length a.
Proof. apply length_fmap. Qed.

Lemma length_senkou_a h l :
  length h = length l → length (senkou_a_of h l) = length h.
Proof.
  intros E. unfold senkou_a_of, tenkan_of, kijun_of, rolling_max, rolling_min.
  rewrite length_shift. 
  rewrite !length_series_half, !length_series_add, !length_series_half,
    !length_series_add, !length_rolling. lia.
Qed.

Lemma length_senkou_b h l :
  length h = length l → length (senkou_b_of h l) = length h.
Proof.
  intros E. unfold senkou_b_of, rolling_max, rolling_min.
  rewrite length_shift, length_series_half, length_series_add, !length_rolling.
  lia.
Qed.

Lemma senkou_a_defined bars i :
  defined_at (senkou_a_of (numbers (highs bars)) (numbers (lows bars))) i
  ↔ (26 + 26 - 1 ≤ i ∧ i < length bars)%nat.
Proof.
  unfold senkou_a_of. rewrite shift_defined, series_half_defined,
    series_add_defined. unfold tenkan_of, kijun_of.
  rewrite !series_half_defined, !series_add_defined.
  unfold rolling_max, rolling_min. rewrite !rolling_numbers_defined by lia.
  rewrite !length_series_half, !length_series_add, !length_series_half,
    !length_series_add, !length_rolling.
  unfold numbers, highs, lows. rewrite !length_fmap. lia.
Qed.

Lemma senkou_b_defined bars i :
  defined_at (senkou_b_of (numbers (highs bars)) (numbers (lows bars))) i
  ↔ (52 + 26 - 1 ≤ i ∧ i < length bars)%nat.
Proof.
  unfold senkou_b_of. rewrite shift_defined, series_half_defined,
    series_add_defined.
  unfold rolling_max, rolling_min. rewrite !rolling_numbers_defined by lia.
  rewrite !length_series_half, !length_series_add, !length_rolling.
  unfold numbers, highs, lows. rewrite !length_fmap. lia.
Qed.

(** ** C7: where the leading spans are defined *)

Lemma add_ichimoku_frame_of bars :
  ∃ df,
    add_ichimoku (frame_of bars) = Ok df
    ∧ nrows df = length bars
    ∧ getitem df "Senkou_A"
      = Ok (senkou_a_of (numbers (highs bars)) (numbers (lows bars)))
    ∧ getitem df "Senkou_B"
      = Ok (senkou_b_of (numbers (highs bars)) (numbers (lows bars)))
    ∧ getitem df "Close" = Ok (numbers (closes bars)).
Proof.
  destruct (frame_of_columns bars) as (Hh & Hl & Hc).
  eexists. split; [by apply add_ichimoku_columns|].
  unfold getitem. simpl. split_and!; [done|simplify_map_eq; congruence..].
Qed.

(** C7, as the code has it.  [shift(26)] moves every cloud value 26 rows
    towards the end, so a leading span is NaN on the first
    [window + 26 - 1] rows and a number from row [window + 26 - 1] on
    (window 26 for span A, 52 for span B).  On a series of exactly
    [window + 26] bars the span is therefore NaN everywhere except on the
    most recent row, which is defined; row [window] itself is still NaN. *)
Theorem leading_span_defined_from_row_window_plus_displacement_minus_1
    (bars : list Bar) :
  ∃ df sa sb,
    add_ichimoku (frame_of bars) = Ok df
    ∧ getitem df "Senkou_A" = Ok sa ∧ getitem df "Senkou_B" = Ok sb
    ∧ length sa = length bars ∧ length sb = length bars
    ∧ (∀ i, (i < length bars)%nat →
         (sa !! i = Some None ↔ (i < 26 + 26 - 1)%nat)
         ∧ (defined_at sa i ↔ (26 + 26 - 1 ≤ i)%nat)
         ∧ (sb !! i = Some None ↔ (i < 52 + 26 - 1)%nat)
         ∧ (defined_at sb i ↔ (52 + 26 - 1 ≤ i)%nat))
    ∧ (length bars = (26 + 26)%nat →
         (∀ i, (i < 51)%nat → sa !! i = Some None)
         ∧ sa !! 26%nat = Some None ∧ defined_at sa 51)
    ∧ (length bars = (52 + 26)%nat →
         (∀ i, (i < 77)%nat → sb !! i = Some None)
         ∧ sb !! 52%nat = Some None ∧ defined_at sb 77).
Proof.
  destruct (add_ichimoku_frame_of bars) as (df & Hdf & _ & Ha & Hb & _).
  set (sa := senkou_a_of _ _) in *. set (sb := senkou_b_of _ _) in *.
  assert (length sa = length bars) as Hla.
  { unfold sa. rewrite length_senkou_a; unfold numbers, highs, lows;
      by rewrite !length_fmap. }
  assert (length sb = length bars) as Hlb.
  { unfold sb. rewrite length_senkou_b; unfold numbers, highs, lows;
      by rewrite !length_fmap. }
  assert (∀ i, (i < length bars)%nat →
         (sa !! i = Some None ↔ (i < 26 + 26 - 1)%nat)
         ∧ (defined_at sa i ↔ (26 + 26 - 1 ≤ i)%nat)
         ∧ (sb !! i = Some None ↔ (i < 52 + 26 - 1)%nat)
         ∧ (defined_at sb i ↔ (52 + 26 - 1 ≤ i)%nat)) as Hgen.
  { intros i Hi.
    rewrite !undefined_iff by lia. unfold sa, sb.
    rewrite senkou_a_defined, senkou_b_defined. lia. }
  exists df, sa, sb. split_and!; try done.
  - intros Hn. split_and!.
    + intros i Hi. apply Hgen; lia.
    + apply Hgen; lia.
    + apply Hgen; lia.
  - intros Hn. split_and!.
    + intros i Hi. apply Hgen; lia.
    + apply Hgen; lia.
    + apply Hgen; lia.
Qed.

Lemma leading_span_defined_from_row_window_plus_displacement_minus_1_witness :
  ∃ sb,
    (df ← add_ichimoku (frame_of (flat 78 1 1 1)); getitem df "Senkou_B") = Ok sb
    ∧ (∀ i, (i < 77)%nat → sb !! i = Some None)
    ∧ sb !! 52%nat = Some None ∧ defined_at sb 77.
Proof.
  destruct (leading_span_defined_from_row_window_plus_displacement_minus_1
              (flat 78 1 1 1))
    as (df & sa & sb & Hdf & _ & Hb & _ & _ & _ & _ & H78).
  exists sb. rewrite Hdf. split; [exact Hb|]. apply H78. reflexivity.
Defined.

(** C7 as the spec words it fails: on 78 identical bars the most recent
    row of leading span B is a number (it is not among "undefined most
    recent 26 rows") and row 52 is NaN; likewise leading span A on 52
    bars at rows 51 and 26. *)
Lemma leading_span_most_recent_row_is_defined :
  (df ← add_ichimoku (frame_of (flat 78 1 1 1)); getitem df "Senkou_B")
    = Ok (replicate 77 None ++ [Some 1])
  ∧ (df ← add_ichimoku (frame_of (flat 52 1 1 1)); getitem df "Senkou_A")
    = Ok (replicate 51 None ++ [Some 1]).
Proof. split; by_evaluation. Qed.

(** ** C2: the cloud-position evaluator *)

Lemma iloc_neg_ok (s : list (option Qc)) k :
  (0 < k ≤ length s)%nat →
  ∃ v, iloc_neg s k = Ok v ∧ s !! (length s - k)%nat = Some v.
Proof.
  intros Hk. unfold iloc_neg. rewrite decide_True by lia.
  destruct (lookup_lt_is_Some_2 s (length s - k)) as [v Hv]; [lia|].
  rewrite Hv. eauto.
Qed.

Lemma Qcmax_lt x y z : Qcmax x y < z ↔ x < z ∧ y < z.
Proof.
  unfold Qcmax. case_bool_decide as H; split.
  - intros Hz. split; [|done]. by eapply Qcle_lt_trans.
  - by intros [_ ?].
  - intros Hz. split; [done|]. apply Qcnot_le_lt in H.
    by etrans.
  - by intros [? _].
Qed.

Lemma py_max_numbers x y : py_max (Some x) (Some y) = Some (Qcmax x y).
Proof.
  unfold py_max, gt, Qcmax.
  case_bool_decide as Hlt; case_bool_decide as Hle; try done.
  - destruct Hle. by apply Qclt_le_weak.
  - f_equal. apply Qcle_antisym; [done|]. by apply Qcnot_lt_le.
Qed.

Lemma gt_true c m : gt c (Some m) = true ↔ ∃ z, c = Some z ∧ m < z.
Proof.
  unfold gt. destruct c as [z|].
  - rewrite bool_decide_eq_true. split; [eauto|]. by intros (z' & [= <-] & ?).
  - split; [done|]. by intros (z' & [=] & _).
Qed.

Lemma is_above_cloud_short df : (len df < 100)%nat → is_above_cloud df = Ok false.
Proof. intros H. unfold is_above_cloud. by rewrite decide_True. Qed.

Lemma is_above_cloud_eval df df' sa sb cl a b c :
  (100 ≤ len df)%nat →
  add_ichimoku df = Ok df' →
  getitem df' "Senkou_A" = Ok sa → iloc_neg sa 1 = Ok a →
  getitem df' "Senkou_B" = Ok sb → iloc_neg sb 1 = Ok b →
  getitem df' "Close" = Ok cl → iloc_neg cl 1 = Ok c →
  is_above_cloud df
  = Ok (if isna a then false else if isna b then false else gt c (py_max a b)).
Proof.
  intros Hlen Hadd Ga Ha Gb Hb Gc Hc.
  unfold is_above_cloud. rewrite decide_False by lia.
  rewrite Hadd. simpl. rewrite Ga. simpl. rewrite Ha. simpl.
  destruct (isna a); [done|].
  rewrite Gb. simpl. rewrite Hb. simpl.
  destruct (isna b); [done|].
  rewrite Gc. simpl. by rewrite Hc.
Qed.

Lemma price_frame_cloud_cells df :
  price_frame df →
  ∃ df' sa sb cl,
    add_ichimoku df = Ok df'
    ∧ getitem df' "Senkou_A" = Ok sa ∧ getitem df' "Senkou_B" = Ok sb
    ∧ getitem df' "Close" = Ok cl
    ∧ length sa = nrows df ∧ length sb = nrows df ∧ length cl = nrows df.
Proof.
  intros Hpf.
  destruct (Hpf "High") as (h & Hh & Hlh); [set_solver|].
  destruct (Hpf "Low") as (l & Hl & Hll); [set_solver|].
  destruct (Hpf "Close") as (cl & Hc & Hlc); [set_solver|].
  eexists _, (senkou_a_of h l), (senkou_b_of h l), cl.
  split; [by apply add_ichimoku_columns|].
  rewrite length_senkou_a, length_senkou_b by lia.
  unfold getitem. simpl. by simplify_map_eq.
Qed.

Lemma is_above_cloud_total df : price_frame df → ∃ b, is_above_cloud df = Ok b.
Proof.
  intros Hpf.
  destruct (decide (len df < 100)%nat) as [Hshort|Hlong].
  { exists false. by apply is_above_cloud_short. }
  destruct (price_frame_cloud_cells df Hpf)
    as (df' & sa & sb & cl & Hadd & Ga & Gb & Gc & La & Lb & Lc).
  unfold len in Hlong.
  destruct (iloc_neg_ok sa 1) as (a & Ha & _); [lia|].
  destruct (iloc_neg_ok sb 1) as (b & Hb & _); [lia|].
  destruct (iloc_neg_ok cl 1) as (c & Hcl & _); [lia|].
  eexists. eapply (is_above_cloud_eval df df' sa sb cl a b c); try done.
  unfold len. lia.
Qed.

(** C2. On every frame with the three price columns (so on every Price
    Series): the evaluator answers false below 100 rows whatever the
    cells hold; from 100 rows on, with [a], [b] the latest leading-span A
    and B cells and [c] the latest close, it answers false when [a] or [b]
    is NaN, and otherwise true exactly when [c] is a number strictly
    greater than the maximum of [a] and [b]. *)
Theorem is_above_cloud_contract (df : DataFrame) (Hpf : price_frame df) :
  ∃ df',
    add_ichimoku df = Ok df'
    ∧ ((len df < 100)%nat → is_above_cloud df = Ok false)
    ∧ ((100 ≤ len df)%nat →
       ∃ a b c,
         (s ← getitem df' "Senkou_A"; iloc_neg s 1) = Ok a
         ∧ (s ← getitem df' "Senkou_B"; iloc_neg s 1) = Ok b
         ∧ (s ← getitem df' "Close"; iloc_neg s 1) = Ok c
         ∧ ((a = None ∨ b = None) → is_above_cloud df = Ok false)
         ∧ (∀ x y, a = Some x → b = Some y →
              ∃ r, is_above_cloud df = Ok r
                   ∧ (r = true ↔ ∃ z, c = Some z ∧ Qcmax x y < z))).
Proof.
  destruct (price_frame_cloud_cells df Hpf)
    as (df' & sa & sb & cl & Hadd & Ga & Gb & Gc & La & Lb & Lc).
  exists df'. split; [done|]. split; [apply is_above_cloud_short|].
  intros Hlen. unfold len in Hlen.
  destruct (iloc_neg_ok sa 1) as (a & Ha & _); [lia|].
  destruct (iloc_neg_ok sb 1) as (b & Hb & _); [lia|].
  destruct (iloc_neg_ok cl 1) as (c & Hcl & _); [lia|].
  exists a, b, c.
  pose proof (is_above_cloud_eval _ _ _ _ _ _ _ _ Hlen Hadd Ga Ha Gb Hb Gc Hcl)
    as Heval.
  rewrite Ga, Gb, Gc. simpl. split_and!; try done.
  - intros [-> | ->]; rewrite Heval; simpl; [done|]. by destruct (isna a).
  - intros x y -> ->. eexists. split; [exact Heval|]. simpl.
    rewrite py_max_numbers. apply gt_true.
Qed.

Lemma is_above_cloud_contract_witness :
  ∃ df',
    add_ichimoku (frame_of rising) = Ok df'
    ∧ ((len (frame_of rising) < 100)%nat
       → is_above_cloud (frame_of rising) = Ok false)
    ∧ ((100 ≤ len (frame_of rising))%nat →
       ∃ a b c,
         (s ← getitem df' "Senkou_A"; iloc_neg s 1) = Ok a
         ∧ (s ← getitem df' "Senkou_B"; iloc_neg s 1) = Ok b
         ∧ (s ← getitem df' "Close"; iloc_neg s 1) = Ok c
         ∧ ((a = None ∨ b = None) → is_above_cloud (frame_of rising) = Ok false)
         ∧ (∀ x y, a = Some x → b = Some y →
              ∃ r, is_above_cloud (frame_of rising) = Ok r
                   ∧ (r = true ↔ ∃ z, c = Some z ∧ Qcmax x y < z))).
Proof.
  apply (is_above_cloud_contract (frame_of rising)).
  intros key Hkey.
  repeat (apply elem_of_cons in Hkey as [->|Hkey]);
    [eexists; split; [vm_compute; reflexivity|vm_compute; reflexivity] ..
    |by apply elem_of_nil in Hkey].
Defined.

Example is_above_cloud_examples :
  is_above_cloud (frame_of rising) = Ok true
  ∧ is_above_cloud (frame_of (flat 100 1 1 1)) = Ok false
  ∧ is_above_cloud (frame_of (flat 99 1 1 1 ++ [mkBar 2 1 1])) = Ok false
  ∧ is_above_cloud (frame_of (flat 98 1 1 1 ++ [mkBar 2 1 2])) = Ok false.
Proof. split_and!; by_evaluation. Qed.

(** ** The pipeline, step by step *)

Lemma is_bullish_run fetch ticker log :
  is_bullish fetch ticker log =
    match fetch ticker "3y" "1d" with
    | Raise _ => (Ok false, log ++ [daily_call ticker])
    | Ok daily =>
        match daily_stage daily with
        | Ok true =>
            match fetch ticker "730d" "60m" with
            | Raise _ =>
                (Ok false, log ++ [daily_call ticker] ++ [hourly_call ticker])
            | Ok hourly =>
                let log' := log ++ [daily_call ticker] ++ [hourly_call ticker]
                                ++ [minute_call ticker] in
                match fetch ticker "7d" "1m" with
                | Raise _ => (Ok false, log')
                | Ok minute =>
                    match intraday_stage hourly minute with
                    | Ok b => (Ok b, log')
                    | Raise _ => (Ok false, log')
                    end
                end
            end
        | _ => (Ok false, log ++ [daily_call ticker])
        end
    end.
Proof.
  unfold is_bullish, try_except, is_bullish_body, download, daily_stage,
    intraday_stage, lift, daily_call, hourly_call, minute_call.
  unfold mbind, M_bind, mret, M_ret, result_bind.
  destruct (fetch ticker "3y" "1d") as [daily|e]; [|done].
  destruct (empty daily || bool_decide (len daily < 100)%nat); [done|].
  destruct (is_above_cloud daily) as [above|e]; [|done].
  destruct (add_macd daily) as [dm|e]; [|done].
  destruct (macd_undefined dm) as [[]|e]; [done| |done].
  destruct (macd_cross dm) as [cross|e]; [|done].
  destruct (above && cross); simpl; [|done].
  destruct (fetch ticker "730d" "60m") as [hourly|e];
    [|by rewrite <- !(assoc_L (++))].
  destruct (fetch ticker "7d" "1m") as [minute|e];
    [|by rewrite <- !(assoc_L (++))].
  destruct (empty hourly || empty minute); [by rewrite <- !(assoc_L (++))|].
  destruct (is_above_cloud hourly) as [ah|e]; [|by rewrite <- !(assoc_L (++))].
  destruct (is_above_cloud minute) as [am|e]; by rewrite <- !(assoc_L (++)).
Qed.

Lemma daily_stage_true daily :
  daily_stage daily = Ok true ↔ daily_check_passes daily.
Proof.
  unfold daily_stage, daily_check_passes. split.
  - destruct (empty daily) eqn:He; [done|]. simpl.
    case_bool_decide as Hlen; [done|].
    destruct (is_above_cloud daily) as [above|e]; [|done]. simpl.
    destruct (add_macd daily) as [dm|e]; [|done]. simpl.
    destruct (macd_undefined dm) as [[]|e] eqn:Hna; [done| |done]. simpl.
    destruct (macd_cross dm) as [cross|e] eqn:Hcross; [|done]. simpl.
    intros [= [-> ->]%andb_true_iff].
    split_and!; [done|lia|done|]. by exists dm.
  - intros (He & Hlen & Ha & dm & Hm & Hna & Hc).
    rewrite He. simpl. rewrite bool_decide_eq_false_2 by lia.
    rewrite Ha. simpl. rewrite Hm. simpl. rewrite Hna. simpl. by rewrite Hc.
Qed.

Lemma intraday_stage_true hourly minute :
  intraday_stage hourly minute = Ok true
  ↔ empty hourly = false ∧ empty minute = false
    ∧ is_above_cloud hourly = Ok true ∧ is_above_cloud minute = Ok true.
Proof.
  unfold intraday_stage. split.
  - destruct (empty hourly); [done|]. destruct (empty minute); [done|]. simpl.
    destruct (is_above_cloud hourly) as [ah|e]; [|done]. simpl.
    destruct (is_above_cloud minute) as [am|e]; [|done]. simpl.
    by intros [= [-> ->]%andb_true_iff].
  - intros (He & He' & Ha & Ha'). rewrite He, He'. simpl.
    rewrite Ha. simpl. by rewrite Ha'.
Qed.

Lemma is_bullish_verdict fetch ticker log :
  ∃ b log', is_bullish fetch ticker log = (Ok b, log').
Proof.
  rewrite is_bullish_run.
  destruct (fetch ticker "3y" "1d") as [daily|e]; [|eauto].
  destruct (daily_stage daily) as [[]|e]; [|eauto..].
  destruct (fetch ticker "730d" "60m") as [hourly|e]; [|eauto].
  destruct (fetch ticker "7d" "1m") as [minute|e]; [|simpl; eauto].
  destruct (intraday_stage hourly minute); simpl; eauto.
Qed.

Lemma is_bullish_true_iff fetch ticker log :
  (is_bullish fetch ticker log).1 = Ok true
  ↔ ∃ daily hourly minute,
      fetch ticker "3y" "1d" = Ok daily ∧ daily_check_passes daily
      ∧ fetch ticker "730d" "60m" = Ok hourly
      ∧ fetch ticker "7d" "1m" = Ok minute
      ∧ empty hourly = false ∧ empty minute = false
      ∧ is_above_cloud hourly = Ok true ∧ is_above_cloud minute = Ok true.
Proof.
  rewrite is_bullish_run. split.
  - destruct (fetch ticker "3y" "1d") as [daily|e]; [|done].
    destruct (daily_stage daily) as [[]|e] eqn:Hd; [|done..].
    apply daily_stage_true in Hd.
    destruct (fetch ticker "730d" "60m") as [hourly|e]; [|done].
    destruct (fetch ticker "7d" "1m") as [minute|e]; [|done].
    destruct (intraday_stage hourly minute) as [b|e] eqn:Hi; [|done].
    simpl. intros [= ->]. apply intraday_stage_true in Hi.
    exists daily, hourly, minute. destruct Hi as (? & ? & ? & ?). by split_and!.
  - intros (daily & hourly & minute & -> & Hd & -> & -> & Hi).
    apply daily_stage_true in Hd. rewrite Hd.
    apply intraday_stage_true in Hi. by rewrite Hi.
Qed.

(** ** C1: when the pipeline qualifies a ticker *)

(** C1. The pipeline always ends with a boolean verdict, and the verdict
    is QUALIFIES exactly when: the daily download answers a non-empty
    frame of at least 100 rows whose close is above the daily cloud, whose
    latest oscillator is a number and on which the momentum cross holds;
    the hourly and minute downloads both answer non-empty frames; and the
    cloud evaluation is true on both.  In every other case the verdict is
    DOES-NOT-QUALIFY. *)
Theorem is_bullish_qualifies_iff
    (fetch : string → string → string → result DataFrame)
    (ticker : string) (log : list call) :
  let qualifying :=
    ∃ daily hourly minute,
      fetch ticker "3y" "1d" = Ok daily
      ∧ (empty daily = false ∧ (100 ≤ len daily)%nat
         ∧ is_above_cloud daily = Ok true
         ∧ ∃ dm, add_macd daily = Ok dm
                 ∧ macd_undefined dm = Ok false ∧ macd_cross dm = Ok true)
      ∧ fetch ticker "730d" "60m" = Ok hourly
      ∧ fetch ticker "7d" "1m" = Ok minute
      ∧ empty hourly = false ∧ empty minute = false
      ∧ is_above_cloud hourly = Ok true ∧ is_above_cloud minute = Ok true in
  ∃ b log',
    is_bullish fetch ticker log = (Ok b, log')
    ∧ (b = true ↔ qualifying) ∧ (b = false ↔ ¬ qualifying).
Proof.
  intros qualifying.
  destruct (is_bullish_verdict fetch ticker log) as (b & log' & Hrun).
  exists b, log'. split; [done|].
  assert (b = true ↔ qualifying) as Hiff.
  { unfold qualifying. fold (daily_check_passes).
    rewrite <- (is_bullish_true_iff fetch ticker log), Hrun. simpl.
    naive_solver. }
  split; [done|]. rewrite <- Hiff. by destruct b.
Qed.

Lemma is_bullish_qualifies_iff_witness :
  ∃ b log', is_bullish example_fetch "AAA" [] = (Ok b, log') ∧ b = true.
Proof.
  destruct (is_bullish_qualifies_iff example_fetch "AAA" [])
    as (b & log' & Hrun & Hiff & _).
  exists b, log'. split; [exact Hrun|].
  assert (is_bullish example_fetch "AAA" []
          = (Ok true, [daily_call "AAA"; hourly_call "AAA"; minute_call "AAA"]))
    as E by (vm_compute; reflexivity).
  congruence.
Defined.

Example is_bullish_example_AAA :
  is_bullish example_fetch "AAA" []
  = (Ok true, [daily_call "AAA"; hourly_call "AAA"; minute_call "AAA"]).
Proof. by_evaluation. Qed.

Example is_bullish_example_BBB :
  is_bullish example_fetch "BBB" [] = (Ok false, [daily_call "BBB"]).
Proof. by_evaluation. Qed.

(** ** C3: exceptions *)

(** C3 as the spec words it fails for the evaluator: it has no handler of
    its own, and on a frame of 100 rows without a [High] column it raises
    [KeyError] to its caller. *)
Lemma is_above_cloud_raises_on_malformed_frame :
  is_above_cloud no_high_frame = Raise (KeyError "High")
  ∧ ¬ (∀ df, ∃ b, is_above_cloud df = Ok b).
Proof.
  assert (is_above_cloud no_high_frame = Raise (KeyError "High")) as E
    by by_evaluation.
  split; [done|]. intros H. destruct (H no_high_frame) as [b Hb]. congruence.
Qed.

(** C3, as the code has it.  The pipeline never raises: whatever the
    provider does (exceptions, malformed frames), [is_bullish] ends with a
    boolean verdict.  The evaluator never raises on a frame that carries
    the three price columns; on other frames it may raise, and when it
    does so on any of the three frames the pipeline evaluates, the handler
    at the pipeline boundary turns that into DOES-NOT-QUALIFY. *)
Theorem pipeline_never_raises
    (fetch : string → string → string → result DataFrame)
    (ticker : string) (log : list call) :
  (∃ b log', is_bullish fetch ticker log = (Ok b, log'))
  ∧ (∀ df, price_frame df → ∃ b, is_above_cloud df = Ok b)
  ∧ (∀ df e,
       fetch ticker "3y" "1d" = Ok df ∨ fetch ticker "730d" "60m" = Ok df
       ∨ fetch ticker "7d" "1m" = Ok df →
       is_above_cloud df = Raise e →
       (is_bullish fetch ticker log).1 = Ok false).
Proof.
  split_and!.
  - apply is_bullish_verdict.
  - apply is_above_cloud_total.
  - intros df e Hdf Hraise.
    destruct (is_bullish_verdict fetch ticker log) as (b & log' & Hrun).
    rewrite Hrun. simpl. destruct b; [|done]. exfalso.
    assert ((is_bullish fetch ticker log).1 = Ok true) as Ht by by rewrite Hrun.
    apply is_bullish_true_iff in Ht
      as (daily & hourly & minute & Hd & (_ & _ & Had & _) & Hh & Hm & _ & _
          & Hah & Ham).
    destruct Hdf as [Hdf|[Hdf|Hdf]]; congruence.
Qed.

Lemma pipeline_never_raises_witness :
  (is_bullish malformed_intraday_fetch "AAA" []).1 = Ok false.
Proof.
  destruct (pipeline_never_raises malformed_intraday_fetch "AAA" [])
    as (_ & _ & H).
  apply (H no_high_frame (KeyError "High")).
  - right. left. reflexivity.
  - vm_compute. reflexivity.
Defined.

Example pipeline_absorbs_provider_failure :
  is_bullish failing_fetch "AAA" [] = (Ok false, [daily_call "AAA"]).
Proof. by_evaluation. Qed.

Example pipeline_absorbs_malformed_frame :
  is_above_cloud no_high_frame = Raise (KeyError "High")
  ∧ is_bullish malformed_intraday_fetch "AAA" []
    = (Ok false, [daily_call "AAA"; hourly_call "AAA"; minute_call "AAA"]).
Proof. split; by_evaluation. Qed.

(** ** C4: the daily short-circuit *)

(** C4. When the daily check fails (the daily download raises, or its
    frame is empty, or has fewer than 100 rows, or "above the daily cloud
    and momentum cross" does not come out true, an exception in computing
    it included), the pipeline answers DOES-NOT-QUALIFY and the only
    provider call it has issued is the daily download, once: no hourly and
    no minute download. *)
Theorem daily_failure_issues_only_the_daily_fetch
    (fetch : string → string → string → result DataFrame)
    (ticker : string) (log : list call)
    (Hfail : ¬ ∃ daily, fetch ticker "3y" "1d" = Ok daily
                        ∧ daily_check_passes daily) :
  is_bullish fetch ticker log = (Ok false, log ++ [daily_call ticker])
  ∧ (hourly_call ticker ∉ [daily_call ticker])
  ∧ (minute_call ticker ∉ [daily_call ticker]).
Proof.
  split; [|split; by intros [=]%list_elem_of_singleton].
  rewrite is_bullish_run.
  destruct (fetch ticker "3y" "1d") as [daily|e]; [|done].
  destruct (daily_stage daily) as [[]|e] eqn:Hd; [|done..].
  apply daily_stage_true in Hd. destruct Hfail. eauto.
Qed.

Lemma daily_failure_issues_only_the_daily_fetch_witness :
  is_bullish example_fetch "BBB" [] = (Ok false, [] ++ [daily_call "BBB"])
  ∧ (hourly_call "BBB" ∉ [daily_call "BBB"])
  ∧ (minute_call "BBB" ∉ [daily_call "BBB"]).
Proof.
  apply (daily_failure_issues_only_the_daily_fetch example_fetch "BBB" []).
  intros (daily & [= <-] & He & _). vm_compute in He. discriminate.
Defined.

(** ** C5: the scan coordinator *)

Lemma future_result_ok fetch ticker : ∃ b, future_result fetch ticker = Ok b.
Proof.
  unfold future_result.
  destruct (is_bullish_verdict fetch ticker []) as (b & log' & ->). by exists b.
Qed.

Lemma future_result_local fetch fetch' ticker :
  (∀ period interval, fetch' ticker period interval = fetch ticker period interval) →
  future_result fetch' ticker = future_result fetch ticker.
Proof.
  intros H. unfold future_result. by rewrite !is_bullish_run, !H.
Qed.

Lemma collect_filter (done : list (result bool * string)) acc :
  Forall (λ p, ∃ b, p.1 = Ok b) done →
  collect done acc = Ok (acc ++ (filter (λ p, p.1 = Ok true) done).*2).
Proof.
  intros H. revert acc. induction H as [|[r t] done [b Hb] _ IH]; intros acc.
  { simpl. by rewrite app_nil_r. }
  simpl in Hb. subst r. simpl. rewrite IH. rewrite filter_cons. simpl.
  destruct b.
  - rewrite decide_True by done. simpl. by rewrite <- (assoc_L (++)).
  - by rewrite decide_False by done.
Qed.

Lemma submit_all_filter fetch tickers :
  (filter (λ p, p.1 = Ok true) (submit_all fetch tickers)).*2
  = filter (λ t, future_result fetch t = Ok true) tickers.
Proof.
  unfold submit_all. induction tickers as [|t l IH]; [done|].
  rewrite fmap_cons, !filter_cons. cbn [fst].
  case_decide; [rewrite fmap_cons; cbn [snd]; f_equal|]; exact IH.
Qed.

Lemma collect_as_completed fetch tickers order :
  order ≡ₚ seq 0 (length tickers) →
  ∃ found,
    collect (as_completed order (submit_all fetch tickers)) [] = Ok found
    ∧ found ≡ₚ filter (λ t, future_result fetch t = Ok true) tickers.
Proof.
  intros Ho.
  assert (as_completed order (submit_all fetch tickers)
          ≡ₚ submit_all fetch tickers) as Hperm.
  { apply as_completed_perm. unfold submit_all. by rewrite length_fmap. }
  eexists. split.
  - apply collect_filter. rewrite Hperm. unfold submit_all.
    apply Forall_fmap, Forall_true. intros t. apply future_result_ok.
  - simpl. rewrite Hperm. by rewrite submit_all_filter.
Qed.

(** C5. Whatever order the universe is listed in and whatever order the
    workers finish in, the scan gives one and the same result: the
    qualifying tickers (those on which the pipeline returns QUALIFIES,
    with their multiplicity in the universe) sorted lexicographically,
    their number as count, and the universe length as total scanned.  A
    ticker's verdict depends on the provider's answers for that ticker
    only, so failures on other tickers do not change it. *)
Theorem screen_invariant_under_permutation
    (fetch : string → string → string → result DataFrame)
    (symbols symbols' : list string) (order order' : list nat)
    (Hsymbols : symbols ≡ₚ symbols')
    (Horder : order ≡ₚ seq 0 (length symbols))
    (Horder' : order' ≡ₚ seq 0 (length symbols')) :
  let qualifying :=
    filter (λ t, (is_bullish fetch t []).1 = Ok true)
           (get_sp500_tickers symbols) in
  ∃ r,
    screen fetch symbols order = Ok r
    ∧ screen fetch symbols' order' = Ok r
    ∧ Sorted str_le (bullish_stocks r)
    ∧ bullish_stocks r ≡ₚ qualifying
    ∧ (∀ t, t ∈ bullish_stocks r
            ↔ t ∈ get_sp500_tickers symbols
              ∧ (is_bullish fetch t []).1 = Ok true)
    ∧ count r = length qualifying
    ∧ total_scanned r = length symbols
    ∧ (∀ fetch' t,
         (∀ period interval, fetch' t period interval = fetch t period interval) →
         (is_bullish fetch' t []).1 = (is_bullish fetch t []).1).
Proof.
  intros qualifying.
  destruct (collect_as_completed fetch (get_sp500_tickers symbols) order)
    as (found & Hc & Hf).
  { unfold get_sp500_tickers. by rewrite length_fmap. }
  destruct (collect_as_completed fetch (get_sp500_tickers symbols') order')
    as (found' & Hc' & Hf').
  { unfold get_sp500_tickers. by rewrite length_fmap. }
  assert (found ≡ₚ found') as Hff.
  { rewrite Hf, Hf'. unfold get_sp500_tickers. by rewrite Hsymbols. }
  fold (future_result fetch) in qualifying.
  exists (mkScan (merge_sort str_le found)
            (match merge_sort str_le found with
             | [] => "" | _ => String.concat ", " (merge_sort str_le found) end)
            (length (merge_sort str_le found))
            (length (get_sp500_tickers symbols))).
  split_and!.
  - unfold screen. rewrite Hc. done.
  - unfold screen. rewrite Hc'. simpl.
    rewrite (sort_perm_eq found' found) by done.
    unfold get_sp500_tickers. by rewrite !length_fmap, Hsymbols.
  - simpl. apply Sorted_merge_sort, _.
  - simpl. by rewrite merge_sort_Permutation.
  - intros t. simpl. rewrite merge_sort_Permutation, Hf.
    rewrite list_elem_of_filter. unfold future_result. tauto.
  - simpl. by rewrite merge_sort_Permutation, Hf.
  - simpl. unfold get_sp500_tickers. by rewrite length_fmap.
  - intros fetch' t H. by apply (future_result_local fetch fetch' t).
Qed.

Lemma screen_invariant_under_permutation_witness :
  screen example_fetch ["AAA"; "BBB"] [0; 1]%nat
  = Ok (mkScan ["AAA"] "AAA" 1 2)
  ∧ screen example_fetch ["BBB"; "AAA"] [1; 0]%nat
    = Ok (mkScan ["AAA"] "AAA" 1 2).
Proof.
  destruct (screen_invariant_under_permutation example_fetch
              ["AAA"; "BBB"] ["BBB"; "AAA"] [0; 1]%nat [1; 0]%nat)
    as (r & H1 & H2 & _).
  - apply perm_swap.
  - reflexivity.
  - apply perm_swap.
  - assert (screen example_fetch ["AAA"; "BBB"] [0; 1]%nat
            = Ok (mkScan ["AAA"] "AAA" 1 2)) as E by (vm_compute; reflexivity).
    split; [exact E|]. rewrite H2, <- H1. exact E.
Defined.

(** ** The momentum columns *)

Lemma add_macd_columns df c :
  columns df !! "Close" = Some c →
  add_macd df =
    Ok (mkFrame (nrows df)
          (<["MACD_Signal" := signal_of c]>
           (<["MACD" := macd_of c]> (columns df)))).
Proof.
  intros Hc. unfold add_macd, add_macd_with, getitem, setitem. simpl.
  rewrite Hc. simpl. by simplify_map_eq.
Qed.

Lemma blend_weights_one (al x : Qc) : x / (1 * (1 - al) + al) = x.
Proof.
  replace (1 * (1 - al) + al) with (1 : Qc) by ring.
  unfold Qcdiv. replace (/ 1) with (1 : Qc) by by apply Qc_is_canon.
  ring.
Qed.

Lemma ewm_go_numbers al y xs :
  ewm_go al (Some y) 1 (numbers xs) = numbers (ema_go al y xs).
Proof.
  revert y. induction xs as [|c xs IH]; intros y; [done|].
  unfold numbers in *. rewrite fmap_cons. simpl.
  rewrite blend_weights_one.
  replace (1 * (1 - al) * y + al * c) with ((1 - al) * y + al * c) by ring.
  by rewrite IH.
Qed.

Lemma ewm_mean_numbers span xs :
  ewm_mean span (numbers xs) = numbers (ema (alpha span) xs).
Proof.
  destruct xs as [|x xs]; [done|].
  pose proof (ewm_go_numbers (alpha span) x xs) as E.
  unfold numbers in *. rewrite fmap_cons. simpl. by rewrite E.
Qed.

Lemma series_sub_numbers xs ys :
  series_sub (numbers xs) (numbers ys) = numbers (zip_with Qcminus xs ys).
Proof.
  unfold series_sub, numbers. revert ys.
  induction xs as [|x xs IH]; intros [|y ys]; simpl; try done.
  by rewrite IH.
Qed.

Lemma length_ema_go al y xs : length (ema_go al y xs) = length xs.
Proof. revert y. induction xs; intros; simpl; auto. Qed.

Lemma length_ema al xs : length (ema al xs) = length xs.
Proof. destruct xs; simpl; [done|]. by rewrite length_ema_go. Qed.

Lemma macd_of_numbers bars :
  macd_of (numbers (closes bars)) = numbers (oscillator bars).
Proof.
  unfold macd_of, oscillator. by rewrite !ewm_mean_numbers, series_sub_numbers.
Qed.

Lemma signal_of_numbers bars :
  signal_of (numbers (closes bars)) = numbers (signal_line bars).
Proof.
  unfold signal_of, signal_line. by rewrite macd_of_numbers, ewm_mean_numbers.
Qed.

Lemma length_oscillator bars : length (oscillator bars) = length bars.
Proof.
  unfold oscillator, closes.
  rewrite length_zip_with, !length_ema, length_fmap. lia.
Qed.

Lemma length_signal_line bars : length (signal_line bars) = length bars.
Proof. unfold signal_line. by rewrite length_ema, length_oscillator. Qed.

Lemma add_macd_frame_of bars :
  ∃ dm,
    add_macd (frame_of bars) = Ok dm
    ∧ getitem dm "MACD" = Ok (numbers (oscillator bars))
    ∧ getitem dm "MACD_Signal" = Ok (numbers (signal_line bars)).
Proof.
  destruct (frame_of_columns bars) as (_ & _ & Hc).
  eexists. split; [by apply add_macd_columns|].
  rewrite macd_of_numbers, signal_of_numbers.
  unfold getitem. simpl. by simplify_map_eq.
Qed.

Lemma length_ewm_go al w ow vals : length (ewm_go al w ow vals) = length vals.
Proof.
  revert w ow. induction vals as [|cur rest IH]; intros w ow; [done|].
  simpl. destruct w, cur; simpl; by rewrite IH.
Qed.

Lemma length_ewm_mean span vals : length (ewm_mean span vals) = length vals.
Proof. destruct vals; simpl; [done|]. by rewrite length_ewm_go. Qed.

Lemma length_macd_of c : length (macd_of c) = length c.
Proof.
  unfold macd_of, series_sub. rewrite length_zip_with, !length_ewm_mean. lia.
Qed.

Lemma length_signal_of c : length (signal_of c) = length c.
Proof. unfold signal_of. by rewrite length_ewm_mean, length_macd_of. Qed.

Lemma add_macd_getitem df c :
  columns df !! "Close" = Some c →
  ∃ dm, add_macd df = Ok dm
        ∧ getitem dm "MACD" = Ok (macd_of c)
        ∧ getitem dm "MACD_Signal" = Ok (signal_of c).
Proof.
  intros Hc. eexists. split; [by apply add_macd_columns|].
  unfold getitem. simpl. by simplify_map_eq.
Qed.

(** A momentum cell is NaN exactly when no close up to its row is a
    number: smoothing starts at the first observation and carries past
    later gaps. *)
Lemma ewm_go_nan al w ow vals i :
  (i < length vals)%nat →
  ewm_go al w ow vals !! i = Some None
  ↔ w = None ∧ ∀ j, (j ≤ i)%nat → vals !! j = Some None.
Proof.
  revert w ow i. induction vals as [|cur rest IH]; intros w ow i Hi;
    [simpl in Hi; lia|].
  assert (∀ (P : nat → Prop), (∀ j, (j ≤ S (pred i))%nat → P j)
            ↔ P 0%nat ∧ ∀ j, (j ≤ pred i)%nat → P (S j)) as Hsplit.
  { intros P. split.
    - intros H. split; [apply H; lia|]. intros j Hj. apply H. lia.
    - intros [H0 HS] [|j] Hj; [done|]. apply HS. lia. }
  destruct w as [y|]; simpl.
  - destruct cur as [c|]; (destruct i as [|i]; simpl;
      [split; [done|by intros [? _]]|]);
      (rewrite IH by (simpl in Hi; lia)); split; by intros [? _].
  - destruct i as [|i]; simpl.
    + split.
      * intros [= ->]. split; [done|]. intros j Hj.
        by replace j with 0%nat by lia.
      * intros [_ H]. by apply (H 0%nat).
    + rewrite IH by (simpl in Hi; lia). split.
      * intros [-> H]. split; [done|]. intros [|j] Hj; [done|].
        apply H. lia.
      * intros [_ H]. split.
        -- specialize (H 0%nat). simpl in H. by injection H; [|lia].
        -- intros j Hj. apply (H (S j)). lia.
Qed.

Lemma ewm_mean_nan span vals i :
  (i < length vals)%nat →
  ewm_mean span vals !! i = Some None
  ↔ ∀ j, (j ≤ i)%nat → vals !! j = Some None.
Proof.
  intros Hi. destruct vals as [|v0 rest]; [simpl in Hi; lia|].
  destruct i as [|i]; simpl.
  - split.
    + intros [= ->] j Hj. by replace j with 0%nat by lia.
    + intros H. by apply (H 0%nat).
  - rewrite ewm_go_nan by (simpl in Hi; lia). split.
    + intros [-> H] [|j] Hj; [done|]. apply H. lia.
    + intros H. split.
      * specialize (H 0%nat). simpl in H. by injection H; [|lia].
      * intros j Hj. apply (H (S j)). lia.
Qed.

Lemma macd_of_nan c i :
  (i < length c)%nat →
  macd_of c !! i = Some None ↔ ∀ j, (j ≤ i)%nat → c !! j = Some None.
Proof.
  intros Hi. unfold macd_of, series_sub. rewrite lookup_zip_with.
  pose proof (ewm_mean_nan 12 c i Hi) as H12.
  pose proof (ewm_mean_nan 26 c i Hi) as H26.
  destruct (lookup_lt_is_Some_2 (ewm_mean 12 c) i) as [a Ha];
    [by rewrite length_ewm_mean|].
  destruct (lookup_lt_is_Some_2 (ewm_mean 26 c) i) as [b Hb];
    [by rewrite length_ewm_mean|].
  rewrite Ha, Hb in *. simpl.
  destruct a as [x|], b as [y|]; simpl.
  - rewrite <- H12. split; intros [=].
  - rewrite <- H12. split; [|intros [=]].
    intros _. apply H12, H26. done.
  - by rewrite <- H12.
  - by rewrite <- H12.
Qed.

Lemma signal_of_nan c i :
  (i < length c)%nat →
  signal_of c !! i = Some None ↔ ∀ j, (j ≤ i)%nat → c !! j = Some None.
Proof.
  intros Hi. unfold signal_of.
  rewrite ewm_mean_nan by (by rewrite length_macd_of). split.
  - intros H. apply macd_of_nan; [done|]. by apply H.
  - intros H j Hj. apply macd_of_nan; [lia|]. intros k Hk. apply H. lia.
Qed.

(** ** C8: a constant series *)

Lemma ema_go_const al c n : ema_go al c (replicate n c) = replicate n c.
Proof.
  induction n as [|n IH]; [done|]. simpl.
  replace ((1 - al) * c + al * c) with c by ring. by rewrite IH.
Qed.

Lemma ema_const al c n : ema al (replicate n c) = replicate n c.
Proof. destruct n; [done|]. simpl. by rewrite ema_go_const. Qed.

Lemma closes_const bars c :
  Forall (λ b, Close b = c) bars → closes bars = replicate (length bars) c.
Proof.
  unfold closes. induction 1 as [|b bars Hb _ IH]; [done|].
  rewrite fmap_cons. simpl. by rewrite Hb, IH.
Qed.

Lemma oscillator_const bars c :
  Forall (λ b, Close b = c) bars →
  ema (alpha 12) (closes bars) = replicate (length bars) c
  ∧ ema (alpha 26) (closes bars) = replicate (length bars) c
  ∧ oscillator bars = replicate (length bars) 0
  ∧ signal_line bars = replicate (length bars) 0.
Proof.
  intros H. unfold signal_line, oscillator.
  rewrite (closes_const bars c H), !ema_const, zip_with_replicate.
  replace (c - c) with (0 : Qc) by ring. by rewrite ema_const.
Qed.

(** C8. On a Price Series whose closes all equal one constant [c]
    (whatever the highs and lows), both exponential averages of the close
    equal [c] at every bar, so the oscillator and its signal line are
    exactly 0 at every bar; in particular they are within any positive
    distance of 0 from some length on. *)
Theorem constant_series_has_zero_momentum (c : Qc) :
  (∀ bars, Forall (λ b, Close b = c) bars →
     ∃ cl dm,
       getitem (frame_of bars) "Close" = Ok cl
       ∧ ewm_mean 12 cl = replicate (length bars) (Some c)
       ∧ ewm_mean 26 cl = replicate (length bars) (Some c)
       ∧ add_macd (frame_of bars) = Ok dm
       ∧ getitem dm "MACD" = Ok (replicate (length bars) (Some 0))
       ∧ getitem dm "MACD_Signal" = Ok (replicate (length bars) (Some 0)))
  ∧ (∀ eps, 0 < eps →
     ∃ N, ∀ bars, (N ≤ length bars)%nat → Forall (λ b, Close b = c) bars →
       ∀ dm m s i v,
         add_macd (frame_of bars) = Ok dm →
         getitem dm "MACD" = Ok m → getitem dm "MACD_Signal" = Ok s →
         m !! i = Some (Some v) ∨ s !! i = Some (Some v) →
         - eps < v ∧ v < eps).
Proof.
  assert (∀ bars, Forall (λ b, Close b = c) bars →
     ∃ cl dm,
       getitem (frame_of bars) "Close" = Ok cl
       ∧ ewm_mean 12 cl = replicate (length bars) (Some c)
       ∧ ewm_mean 26 cl = replicate (length bars) (Some c)
       ∧ add_macd (frame_of bars) = Ok dm
       ∧ getitem dm "MACD" = Ok (replicate (length bars) (Some 0))
       ∧ getitem dm "MACD_Signal" = Ok (replicate (length bars) (Some 0)))
    as Hexact.
  { intros bars Hc.
    destruct (oscillator_const bars c Hc) as (Hf & Hs & Ho & Hsig).
    destruct (add_macd_frame_of bars) as (dm & Hdm & Hm & Hsg).
    destruct (frame_of_columns bars) as (_ & _ & Hcl).
    exists (numbers (closes bars)), dm. split_and!.
    - unfold getitem. by rewrite Hcl.
    - rewrite ewm_mean_numbers, Hf. unfold numbers. by rewrite fmap_replicate.
    - rewrite ewm_mean_numbers, Hs. unfold numbers. by rewrite fmap_replicate.
    - done.
    - rewrite Hm, Ho. unfold numbers. by rewrite fmap_replicate.
    - rewrite Hsg, Hsig. unfold numbers. by rewrite fmap_replicate. }
  split; [done|].
  intros eps Heps. exists 0%nat. intros bars _ Hc dm m s i v Hdm Hm Hs Hv.
  destruct (Hexact bars Hc) as (cl & dm' & _ & _ & _ & Hdm' & Hm' & Hs').
  assert (dm' = dm) as -> by congruence.
  assert (v = 0) as ->.
  { destruct Hv as [Hv|Hv].
    - rewrite Hm' in Hm. injection Hm as <-.
      apply lookup_replicate in Hv as [Hv _]. congruence.
    - rewrite Hs' in Hs. injection Hs as <-.
      apply lookup_replicate in Hv as [Hv _]. congruence. }
  split; [|done].
  apply Qclt_minus_iff. by replace (0 + - - eps) with eps by ring.
Qed.

Lemma constant_series_has_zero_momentum_witness :
  ∃ cl dm,
    getitem (frame_of (flat 5 2 1 2)) "Close" = Ok cl
    ∧ ewm_mean 12 cl = replicate 5 (Some 2)
    ∧ ewm_mean 26 cl = replicate 5 (Some 2)
    ∧ add_macd (frame_of (flat 5 2 1 2)) = Ok dm
    ∧ getitem dm "MACD" = Ok (replicate 5 (Some 0))
    ∧ getitem dm "MACD_Signal" = Ok (replicate 5 (Some 0)).
Proof.
  destruct (constant_series_has_zero_momentum 2) as [H _].
  apply (H (flat 5 2 1 2)). repeat constructor.
Defined.

Example constant_series_of_five :
  (dm ← add_macd (frame_of (flat 5 2 1 2)); getitem dm "MACD")
  = Ok (replicate 5 (Some 0))
  ∧ (dm ← add_macd (frame_of (flat 5 2 1 2)); getitem dm "MACD_Signal")
    = Ok (replicate 5 (Some 0)).
Proof. split; by_evaluation. Qed.

(** ** C10: when the latest oscillator value is NaN *)

Lemma frame_of_not_empty bars : bars ≠ [] → empty (frame_of bars) = false.
Proof.
  intros Hne. unfold empty, frame_of. simpl.
  rewrite bool_decide_eq_false_2 by (by destruct bars).
  rewrite bool_decide_eq_false_2; [done|]. apply insert_non_empty.
Qed.

Lemma latest_macd_nan df c :
  columns df !! "Close" = Some c → c ≠ [] →
  ∃ dm v,
    add_macd df = Ok dm
    ∧ (m ← getitem dm "MACD"; iloc_neg m 1) = Ok v
    ∧ macd_undefined dm = Ok (isna v)
    ∧ (isna v = true ↔ Forall (λ x, x = None) c).
Proof.
  intros Hc Hne.
  destruct (add_macd_getitem df c Hc) as (dm & Hdm & Gm & _).
  destruct (iloc_neg_ok (macd_of c) 1) as (v & Hv & Hl).
  { rewrite length_macd_of. destruct c; [done|simpl; lia]. }
  exists dm, v. split_and!; [done| | |].
  - rewrite Gm. simpl. exact Hv.
  - unfold macd_undefined. rewrite Gm. simpl. by rewrite Hv.
  - rewrite length_macd_of in Hl.
    assert (length c - 1 < length c)%nat as Hlt
      by (destruct c; [done|simpl; lia]).
    rewrite Forall_lookup. destruct v as [x|]; simpl.
    + split; [done|]. intros H.
      assert (macd_of c !! (length c - 1)%nat = Some None) as E.
      { apply macd_of_nan; [done|]. intros j Hj.
        destruct (lookup_lt_is_Some_2 c j) as [w Hw]; [lia|].
        rewrite Hw. f_equal. by apply (H j). }
      congruence.
    + split; [|done]. intros _ j w Hw.
      pose proof (lookup_lt_Some _ _ _ Hw) as Hj.
      apply (macd_of_nan c _ Hlt) with (j := j) in Hl; [|lia]. congruence.
Qed.

(** The guard of the pipeline tests the row count, not the cells: a frame
    of 100 rows whose closes are all NaN passes it, the evaluator and
    [add_macd] return, and the test [pd.isna(daily_data['MACD'].iloc[-1])]
    is true, so the pipeline leaves through that exit. *)
Lemma isna_exit_is_taken_on_nan_closes :
  (empty nan_close_frame || bool_decide (len nan_close_frame < 100)%nat) = false
  ∧ is_above_cloud nan_close_frame = Ok false
  ∧ (∃ dm, add_macd nan_close_frame = Ok dm ∧ macd_undefined dm = Ok true)
  ∧ is_bullish nan_close_fetch "AAA" [] = (Ok false, [daily_call "AAA"]).
Proof.
  split_and!.
  - by_evaluation.
  - by_evaluation.
  - destruct (latest_macd_nan nan_close_frame (replicate 100 None))
      as (dm & v & Hdm & _ & Hna & Hiff); [by_evaluation|done|].
    exists dm. split; [done|]. rewrite Hna. f_equal. apply Hiff.
    by apply Forall_replicate.
  - by_evaluation.
Qed.

(** C10.  The latest oscillator value is NaN exactly when the [Close]
    column holds no number.  So on every non-empty Price Series (its
    closes are numbers) it is a number and the exit on
    [pd.isna(daily_data['MACD'].iloc[-1])] is not taken; on a frame with
    highs, lows and closes that passes the guard on emptiness and on 100
    rows the evaluator and [add_macd] return and the exit is taken exactly
    when every close is NaN, and then the daily stage ends with
    DOES-NOT-QUALIFY. *)
Theorem latest_oscillator_is_nan_iff_no_close_is_a_number :
  (∀ df c, columns df !! "Close" = Some c → c ≠ [] →
     ∃ dm v,
       add_macd df = Ok dm
       ∧ (m ← getitem dm "MACD"; iloc_neg m 1) = Ok v
       ∧ macd_undefined dm = Ok (isna v)
       ∧ (isna v = true ↔ Forall (λ x, x = None) c))
  ∧ (∀ bars, bars ≠ [] →
       empty (frame_of bars) = false
       ∧ ∃ dm v,
           add_macd (frame_of bars) = Ok dm
           ∧ (m ← getitem dm "MACD"; iloc_neg m 1) = Ok (Some v)
           ∧ macd_undefined dm = Ok false)
  ∧ (∀ df c, price_frame df → columns df !! "Close" = Some c →
       (empty df || bool_decide (len df < 100)%nat) = false →
       ∃ above dm na,
         is_above_cloud df = Ok above
         ∧ add_macd df = Ok dm
         ∧ macd_undefined dm = Ok na
         ∧ (na = true ↔ Forall (λ x, x = None) c)
         ∧ (na = true → daily_stage df = Ok false)).
Proof.
  split_and!.
  - apply latest_macd_nan.
  - intros bars Hne. split; [by apply frame_of_not_empty|].
    destruct (frame_of_columns bars) as (_ & _ & Hc).
    destruct (latest_macd_nan (frame_of bars) (numbers (closes bars)) Hc)
      as (dm & v & Hdm & Hv & Hna & Hiff).
    { unfold numbers, closes. by destruct bars. }
    destruct v as [x|].
    + by exists dm, x.
    + exfalso. destruct Hiff as [Hiff _]. specialize (Hiff eq_refl).
      unfold numbers, closes in Hiff. destruct bars as [|b bars]; [done|].
      by apply Forall_cons in Hiff as [? _].
  - intros df c Hpf Hc Hguard.
    apply orb_false_iff in Hguard as [_ Hlen%bool_decide_eq_false].
    destruct (Hpf "Close") as (c' & Hc' & Lc); [set_solver|].
    assert (c' = c) as -> by congruence.
    destruct (is_above_cloud_total df Hpf) as [above Habove].
    destruct (latest_macd_nan df c Hc) as (dm & v & Hdm & Hv & Hna & Hiff).
    { intros ->. simpl in Lc. unfold len in Hlen. lia. }
    exists above, dm, (isna v). split_and!; try done.
    intros Hv'. unfold daily_stage.
    destruct (empty df || bool_decide (len df < 100)%nat); [done|].
    rewrite Habove. simpl. rewrite Hdm. simpl. rewrite Hna. simpl.
    by rewrite Hv'.
Qed.

Lemma latest_oscillator_is_nan_iff_no_close_is_a_number_witness :
  (∃ dm v,
     add_macd (frame_of rising) = Ok dm
     ∧ (m ← getitem dm "MACD"; iloc_neg m 1) = Ok (Some v)
     ∧ macd_undefined dm = Ok false)
  ∧ (∃ above dm na,
       is_above_cloud nan_close_frame = Ok above
       ∧ add_macd nan_close_frame = Ok dm
       ∧ macd_undefined dm = Ok na
       ∧ (na = true ↔ Forall (λ x, x = None) (replicate 100 (@None Qc)))
       ∧ (na = true → daily_stage nan_close_frame = Ok false)).
Proof.
  destruct latest_oscillator_is_nan_iff_no_close_is_a_number as (_ & H2 & H3).
  split.
  - apply (H2 rising). discriminate.
  - apply (H3 nan_close_frame (replicate 100 None)).
    + intros key Hkey. vm_compute in Hkey.
      apply elem_of_cons in Hkey as [->|Hkey];
        [eexists; split; [vm_compute; reflexivity|reflexivity]|].
      apply elem_of_cons in Hkey as [->|Hkey];
        [eexists; split; [vm_compute; reflexivity|reflexivity]|].
      apply list_elem_of_singleton in Hkey as ->.
      eexists; split; [vm_compute; reflexivity|reflexivity].
    + vm_compute. reflexivity.
    + vm_compute. reflexivity.
Defined.

(** ** The momentum cross on a Price Series *)

(** Smoothing commutes with cutting the series after [n] bars: a value
    depends on the bars up to its own only. *)
Lemma ema_go_take al y0 xs n :
  ema_go al y0 (take n xs) = take n (ema_go al y0 xs).
Proof.
  revert y0 n. induction xs as [|c xs IH]; intros y0 [|n]; simpl; try done.
  by rewrite IH.
Qed.

Lemma ema_take al xs n : ema al (take n xs) = take n (ema al xs).
Proof. destruct xs, n; simpl; try done. by rewrite ema_go_take. Qed.

Lemma oscillator_take bars n :
  oscillator (take n bars) = take n (oscillator bars).
Proof.
  unfold oscillator, closes. by rewrite fmap_take, !ema_take, zip_with_take.
Qed.

Lemma signal_line_take bars n :
  signal_line (take n bars) = take n (signal_line bars).
Proof. unfold signal_line. by rewrite oscillator_take, ema_take. Qed.

Lemma iloc_neg_numbers xs k x :
  (0 < k ≤ length xs)%nat → xs !! (length xs - k)%nat = Some x →
  iloc_neg (numbers xs) k = Ok (Some x).
Proof.
  intros Hk Hx. unfold iloc_neg, numbers. rewrite length_fmap.
  rewrite decide_True by lia. by rewrite list_lookup_fmap, Hx.
Qed.

Lemma iloc_neg_short (s : list (option Qc)) k :
  (length s < k)%nat → iloc_neg s k = Raise IndexError.
Proof. intros H. unfold iloc_neg. by rewrite decide_False by lia. Qed.

Lemma macd_cross_numbers dm m s m2 s2 m1 s1 :
  getitem dm "MACD" = Ok (numbers m) →
  getitem dm "MACD_Signal" = Ok (numbers s) →
  (2 ≤ length m)%nat → length s = length m →
  m !! (length m - 2)%nat = Some m2 → s !! (length m - 2)%nat = Some s2 →
  m !! (length m - 1)%nat = Some m1 → s !! (length m - 1)%nat = Some s1 →
  macd_cross dm = Ok (bool_decide (m2 ≤ s2) && bool_decide (s1 < m1)).
Proof.
  intros Gm Gs Hlen Hls Hm2 Hs2 Hm1 Hs1. unfold macd_cross.
  rewrite <- Hls in Hs2, Hs1.
  rewrite Gm. simpl. rewrite (iloc_neg_numbers m 2 m2); [|lia|done]. simpl.
  rewrite Gs. simpl. rewrite (iloc_neg_numbers s 2 s2); [|lia|done]. simpl.
  case_bool_decide; [|done]. simpl.
  rewrite (iloc_neg_numbers m 1 m1); [|lia|done]. simpl.
  rewrite (iloc_neg_numbers s 1 s1); [|lia|done]. done.
Qed.

Lemma macd_cross_short dm m :
  getitem dm "MACD" = Ok m → (length m < 2)%nat →
  macd_cross dm = Raise IndexError.
Proof.
  intros Gm Hlen. unfold macd_cross. rewrite Gm. simpl.
  rewrite (iloc_neg_short m 2) by done. reflexivity.
Qed.

(** The cross on the first [n] bars, read off the oscillator and signal of
    the whole series. *)
Lemma fires_iff bars n :
  (n ≤ length bars)%nat →
  fires bars n
  ↔ (2 ≤ n)%nat
    ∧ ∃ m2 s2 m1 s1,
        oscillator bars !! (n - 2)%nat = Some m2
        ∧ signal_line bars !! (n - 2)%nat = Some s2
        ∧ oscillator bars !! (n - 1)%nat = Some m1
        ∧ signal_line bars !! (n - 1)%nat = Some s1
        ∧ m2 ≤ s2 ∧ s1 < m1.
Proof.
  intros Hn. unfold fires.
  destruct (add_macd_frame_of (take n bars)) as (dm & -> & Gm & Gs). simpl.
  rewrite oscillator_take in Gm. rewrite signal_line_take in Gs.
  assert (length (take n (oscillator bars)) = n) as Lm.
  { apply length_take_le. by rewrite length_oscillator. }
  assert (length (take n (signal_line bars)) = n) as Ls.
  { apply length_take_le. by rewrite length_signal_line. }
  destruct (decide (2 ≤ n)%nat) as [H2|H2]; cycle 1.
  { rewrite (macd_cross_short dm _ Gm)
      by (unfold numbers; rewrite length_fmap; lia).
    split; [done|]. intros [? _]. lia. }
  destruct (lookup_lt_is_Some_2 (oscillator bars) (n - 2)) as [m2 Hm2];
    [rewrite length_oscillator; lia|].
  destruct (lookup_lt_is_Some_2 (oscillator bars) (n - 1)) as [m1 Hm1];
    [rewrite length_oscillator; lia|].
  destruct (lookup_lt_is_Some_2 (signal_line bars) (n - 2)) as [s2 Hs2];
    [rewrite length_signal_line; lia|].
  destruct (lookup_lt_is_Some_2 (signal_line bars) (n - 1)) as [s1 Hs1];
    [rewrite length_signal_line; lia|].
  rewrite (macd_cross_numbers dm _ _ m2 s2 m1 s1 Gm Gs);
    rewrite ?Lm, ?Ls, ?lookup_take_lt by lia; try done.
  split.
  - intros [= [H1%bool_decide_eq_true H3%bool_decide_eq_true]%andb_true_iff].
    split; [done|]. by exists m2, s2, m1, s1.
  - intros (_ & m2' & s2' & m1' & s1' & ? & ? & ? & ? & Hle & Hlt).
    simplify_eq. by rewrite !bool_decide_eq_true_2.
Qed.

Example cross_fires_after_third_bar :
  (dm ← add_macd (frame_of (take 2 ramp_closes)); macd_cross dm) = Ok false
  ∧ (dm ← add_macd (frame_of (take 3 ramp_closes)); macd_cross dm) = Ok true
  ∧ (dm ← add_macd (frame_of (take 4 ramp_closes)); macd_cross dm) = Ok false
  ∧ (dm ← add_macd (frame_of (take 1 ramp_closes)); macd_cross dm)
    = Raise IndexError.
Proof. split_and!; by_evaluation. Qed.

(** ** C6: the momentum cross, in binary64 *)

Lemma length_ewm_go64 al w ow vals : length (ewm_go64 al w ow vals) = length vals.
Proof.
  revert w ow. induction vals as [|cur rest IH]; intros w ow; [done|].
  simpl. destruct (is_observation w); [destruct (is_observation cur)|];
    simpl; by rewrite IH.
Qed.

Lemma length_ewm_mean64 span vals : length (ewm_mean64 span vals) = length vals.
Proof. destruct vals; [done|]. simpl. by rewrite length_ewm_go64. Qed.

Lemma length_macd_of64 c : length (macd_of64 c) = length c.
Proof.
  unfold macd_of64. rewrite length_zip_with, !length_ewm_mean64. lia.
Qed.

Lemma length_signal_of64 c : length (signal_of64 c) = length c.
Proof. unfold signal_of64. by rewrite length_ewm_mean64, length_macd_of64. Qed.

(** Smoothing commutes with cutting the column after [n] rows. *)
Lemma ewm_go64_take al w ow vals n :
  ewm_go64 al w ow (take n vals) = take n (ewm_go64 al w ow vals).
Proof.
  revert w ow n. induction vals as [|cur rest IH]; intros w ow [|n]; try done.
  simpl. destruct (is_observation w); [destruct (is_observation cur)|];
    simpl; by rewrite IH.
Qed.

Lemma ewm_mean64_take span vals n :
  ewm_mean64 span (take n vals) = take n (ewm_mean64 span vals).
Proof. destruct vals, n; simpl; try done. by rewrite ewm_go64_take. Qed.

Lemma macd_of64_take c n : macd_of64 (take n c) = take n (macd_of64 c).
Proof. unfold macd_of64. by rewrite !ewm_mean64_take, zip_with_take. Qed.

Lemma signal_of64_take c n : signal_of64 (take n c) = take n (signal_of64 c).
Proof. unfold signal_of64. by rewrite macd_of64_take, ewm_mean64_take. Qed.

Lemma iloc_neg64_take (s : list spec_float) n k v :
  (0 < k ≤ n)%nat → (n ≤ length s)%nat → s !! (n - k)%nat = Some v →
  iloc_neg64 (take n s) k = Ok v.
Proof.
  intros Hk Hn Hv. unfold iloc_neg64. rewrite length_take_le by lia.
  rewrite decide_True by lia. rewrite lookup_take_lt by lia. by rewrite Hv.
Qed.

Lemma iloc_neg64_short (s : list spec_float) k :
  (length s < k)%nat → iloc_neg64 s k = Raise IndexError.
Proof. intros H. unfold iloc_neg64. by rewrite decide_False by lia. Qed.

(** The two float comparisons of the cross exclude each other. *)
Lemma SFcompare_antisym x y : SFcompare y x = CompOpp <$> SFcompare x y.
Proof.
  destruct x as [sx|sx| |sx mx ex], y as [sy|sy| |sy my ey]; simpl;
    try done; try (by destruct sx); try (by destruct sy);
    try (by destruct sx, sy).
  f_equal. destruct sx, sy; simpl; try done.
  - rewrite (Z.compare_antisym ex ey).
    destruct (ex ?= ey)%Z; simpl; try done.
    f_equal. by rewrite Pos.compare_cont_antisym.
  - rewrite (Z.compare_antisym ex ey).
    destruct (ex ?= ey)%Z; simpl; try done.
    by rewrite Pos.compare_cont_antisym.
Qed.

Lemma SFleb_SFltb_excl x y : SFleb x y = true → SFltb y x = true → False.
Proof.
  unfold SFleb, SFltb. rewrite (SFcompare_antisym x y).
  by destruct (SFcompare x y) as [[]|].
Qed.

Lemma at_or_below64_above64_excl c i :
  at_or_below64 c i = true → above64 c i = true → False.
Proof.
  unfold at_or_below64, above64.
  destruct (macd_of64 c !! i) as [m|]; [|done].
  destruct (signal_of64 c !! i) as [s|]; [|done].
  apply SFleb_SFltb_excl.
Qed.

(** The cross on the first [n] closes, read off the columns of the whole
    series. *)
Lemma fires64_iff c n :
  (n ≤ length c)%nat →
  fires64 c n
  ↔ (2 ≤ n)%nat ∧ at_or_below64 c (n - 2) = true ∧ above64 c (n - 1) = true.
Proof.
  intros Hn. unfold fires64, macd_cross64, at_or_below64, above64.
  rewrite macd_of64_take, signal_of64_take.
  destruct (decide (2 ≤ n)%nat) as [H2|H2]; cycle 1.
  { rewrite (iloc_neg64_short (take n (macd_of64 c)) 2)
      by (rewrite length_take, length_macd_of64; lia).
    simpl. split; [done|]. intros [? _]. lia. }
  destruct (lookup_lt_is_Some_2 (macd_of64 c) (n - 2)) as [m2 Hm2];
    [rewrite length_macd_of64; lia|].
  destruct (lookup_lt_is_Some_2 (macd_of64 c) (n - 1)) as [m1 Hm1];
    [rewrite length_macd_of64; lia|].
  destruct (lookup_lt_is_Some_2 (signal_of64 c) (n - 2)) as [s2 Hs2];
    [rewrite length_signal_of64; lia|].
  destruct (lookup_lt_is_Some_2 (signal_of64 c) (n - 1)) as [s1 Hs1];
    [rewrite length_signal_of64; lia|].
  assert (n ≤ length (macd_of64 c))%nat as Lm by by rewrite length_macd_of64.
  assert (n ≤ length (signal_of64 c))%nat as Ls
    by by rewrite length_signal_of64.
  rewrite (iloc_neg64_take (macd_of64 c) n 2 m2) by (lia || done).
  rewrite (iloc_neg64_take (signal_of64 c) n 2 s2) by (lia || done).
  rewrite Hm2, Hs2, Hm1, Hs1. simpl.
  destruct (SFleb m2 s2); simpl.
  - rewrite (iloc_neg64_take (macd_of64 c) n 1 m1) by (lia || done).
    rewrite (iloc_neg64_take (signal_of64 c) n 1 s1) by (lia || done).
    simpl. split; [intros [= ->]; done|]. intros (_ & _ & ->). done.
  - split; [done|]. by intros (_ & ? & _).
Qed.

(** C6.  In binary64, on a daily series of at least two closes the
    momentum cross is true exactly when the oscillator at [iloc[-2]] (the
    bar before the latest, the spec's "two bars ago") is at most its
    signal there and the latest oscillator is strictly above the latest
    signal.  Evaluated after each bar, the cross therefore fires after bar
    [n - 1] exactly when the computed oscillator is at or below its
    computed signal on bar [n - 2] and strictly above it on bar [n - 1];
    and when the computed oscillator is at or below the computed signal on
    every bar before bar [k] and strictly above it from bar [k] on, the
    cross fires on that one transition (on the first [k + 1] bars) and on
    no other. *)
Theorem cross_fires_exactly_on_the_computed_crossing (c : list spec_float) :
  ((2 ≤ length c)%nat →
     ∃ m2 s2 m1 s1 b,
       iloc_neg64 (macd_of64 c) 2 = Ok m2
       ∧ iloc_neg64 (signal_of64 c) 2 = Ok s2
       ∧ iloc_neg64 (macd_of64 c) 1 = Ok m1
       ∧ iloc_neg64 (signal_of64 c) 1 = Ok s1
       ∧ macd_cross64 (macd_of64 c) (signal_of64 c) = Ok b
       ∧ (b = true ↔ SFleb m2 s2 = true ∧ SFltb s1 m1 = true))
  ∧ (∀ n, (n ≤ length c)%nat →
       fires64 c n
       ↔ (2 ≤ n)%nat
         ∧ at_or_below64 c (n - 2) = true ∧ above64 c (n - 1) = true)
  ∧ (∀ k, (1 ≤ k < length c)%nat →
       (∀ i, (i < k)%nat → at_or_below64 c i = true) →
       (∀ i, (k ≤ i < length c)%nat → above64 c i = true) →
       ∀ n, (n ≤ length c)%nat → fires64 c n ↔ n = S k).
Proof.
  split_and!.
  - intros Hlen.
    pose proof (length_macd_of64 c) as Lm.
    pose proof (length_signal_of64 c) as Ls.
    destruct (lookup_lt_is_Some_2 (macd_of64 c) (length c - 2)) as [m2 Hm2];
      [lia|].
    destruct (lookup_lt_is_Some_2 (macd_of64 c) (length c - 1)) as [m1 Hm1];
      [lia|].
    destruct (lookup_lt_is_Some_2 (signal_of64 c) (length c - 2)) as [s2 Hs2];
      [lia|].
    destruct (lookup_lt_is_Some_2 (signal_of64 c) (length c - 1)) as [s1 Hs1];
      [lia|].
    assert (iloc_neg64 (macd_of64 c) 2 = Ok m2) as I1.
    { unfold iloc_neg64. by rewrite Lm, decide_True, Hm2 by lia. }
    assert (iloc_neg64 (signal_of64 c) 2 = Ok s2) as I2.
    { unfold iloc_neg64. by rewrite Ls, decide_True, Hs2 by lia. }
    assert (iloc_neg64 (macd_of64 c) 1 = Ok m1) as I3.
    { unfold iloc_neg64. by rewrite Lm, decide_True, Hm1 by lia. }
    assert (iloc_neg64 (signal_of64 c) 1 = Ok s1) as I4.
    { unfold iloc_neg64. by rewrite Ls, decide_True, Hs1 by lia. }
    exists m2, s2, m1, s1, (SFleb m2 s2 && SFltb s1 m1).
    split_and!; try done.
    + unfold macd_cross64. rewrite I1, I2. simpl.
      destruct (SFleb m2 s2); [|done]. by rewrite I3, I4.
    + by rewrite andb_true_iff.
  - apply fires64_iff.
  - intros k Hk Hbelow Habove n Hn. rewrite fires64_iff by done. split.
    + intros (H2 & Hb & Ha).
      destruct (decide (n - 1 < k)%nat) as [Hlt|Hge].
      { destruct (at_or_below64_above64_excl c (n - 1)); [|done].
        by apply Hbelow. }
      destruct (decide (k ≤ n - 2)%nat) as [Hle|Hgt]; [|lia].
      destruct (at_or_below64_above64_excl c (n - 2)); [done|].
      apply Habove. lia.
    + intros ->. split_and!; [lia| |].
      * apply Hbelow. lia.
      * replace (S k - 1)%nat with k by lia. apply Habove. lia.
Qed.

Lemma cross_fires_exactly_on_the_computed_crossing_witness :
  fires64 step_closes 3
  ∧ ¬ fires64 step_closes 2 ∧ ¬ fires64 step_closes 4.
Proof.
  destruct (cross_fires_exactly_on_the_computed_crossing step_closes)
    as (_ & _ & H).
  assert (∀ n, (n ≤ length step_closes)%nat →
            fires64 step_closes n ↔ n = 3%nat) as H'.
  { apply (H 2%nat).
    - simpl. lia.
    - intros [|[|i]] Hi; [vm_compute; reflexivity..|lia].
    - intros [|[|[|[|i]]]] Hi; simpl in Hi; try lia; vm_compute; reflexivity. }
  split_and!.
  - apply H'; [simpl; lia|reflexivity].
  - intros F. apply H' in F; [lia|simpl; lia].
  - intros F. apply H' in F; [lia|simpl; lia].
Defined.

(** Binary64 rounding lets the signal reach the oscillator.  On closes
    that climb from 100 by half a unit per bar the oscillator never falls
    and flattens out below 3.5; the cross fires on the first rise, the
    signal then catches up with the oscillator exactly, and when the
    oscillator moves up by one last step on bar 447 the cross fires a
    second time.  The same happens within seven bars on the grid of the
    smallest binary64 step, where the columns can be followed by hand. *)
Lemma cross_fires_twice_on_a_flattening_oscillator :
  (Forall (λ x, valid_binary 53 1024 x = true) (steady_climb 448)
   ∧ non_decreasing64 (macd_of64 (steady_climb 448))
   ∧ at_or_below64 (steady_climb 448) 0 = true
   ∧ above64 (steady_climb 448) 1 = true
   ∧ last (macd_of64 (steady_climb 448)) = Some (f64 7 (-1))
   ∧ fires64 (steady_climb 448) 2
   ∧ fires64 (steady_climb 448) 448)
  ∧ (Forall (λ x, valid_binary 53 1024 x = true) tiny_closes
     ∧ macd_of64 tiny_closes
       = (λ k, f64 k (-1074)) <$> [0; 1; 2; 3; 3; 3; 4]%Z
     ∧ signal_of64 tiny_closes
       = (λ k, f64 k (-1074)) <$> [0; 0; 0; 1; 2; 3; 3]%Z
     ∧ fires64 tiny_closes 2
     ∧ fires64 tiny_closes 7).
Proof.
  split; split_and!; try (vm_compute; reflexivity); by_evaluation.
Qed.

(** * Further properties of the code *)

(** ** The frames the indicator engine returns *)

Lemma length_tenkan h l :
  length h = length l → length (tenkan_of h l) = length h.
Proof.
  intros E. unfold tenkan_of, rolling_max, rolling_min.
  rewrite length_series_half, length_series_add, !length_rolling. lia.
Qed.

Lemma length_kijun h l :
  length h = length l → length (kijun_of h l) = length h.
Proof.
  intros E. unfold kijun_of, rolling_max, rolling_min.
  rewrite length_series_half, length_series_add, !length_rolling. lia.
Qed.

(** X1. [add_ichimoku] raises [KeyError] for [High] when that column is
    missing, and for [Low] when [High] is there and [Low] is not.
    Otherwise it succeeds: the row count and every column other than the
    four cloud columns are unchanged, the four cloud columns are present
    afterwards (replacing columns of those names, if any), and when the
    highs and lows have one cell per row so has each cloud column. *)
Theorem add_ichimoku_frame (df : DataFrame) :
  (columns df !! "High" = None → add_ichimoku df = Raise (KeyError "High"))
  ∧ (is_Some (columns df !! "High") → columns df !! "Low" = None →
     add_ichimoku df = Raise (KeyError "Low"))
  ∧ (∀ h l, columns df !! "High" = Some h → columns df !! "Low" = Some l →
     ∃ df',
       add_ichimoku df = Ok df'
       ∧ nrows df' = nrows df
       ∧ (∀ key, key ∉ cloud_columns → columns df' !! key = columns df !! key)
       ∧ (∀ key, key ∈ cloud_columns → is_Some (columns df' !! key))
       ∧ (length h = nrows df → length l = nrows df →
          ∀ key s, key ∈ cloud_columns → columns df' !! key = Some s →
                   length s = nrows df)).
Proof.
  split_and!.
  - intros Hh. unfold add_ichimoku, getitem. by rewrite Hh.
  - intros [h Hh] Hl. unfold add_ichimoku, getitem. rewrite Hh. simpl.
    by rewrite Hl.
  - intros h l Hh Hl. eexists. split; [by apply add_ichimoku_columns|].
    simpl. split_and!; [done|..].
    + intros key Hkey. unfold cloud_columns in Hkey.
      rewrite !lookup_insert_ne; [done|set_solver..].
    + intros key Hkey. unfold cloud_columns in Hkey.
      repeat (apply elem_of_cons in Hkey as [->|Hkey]);
        [simplify_map_eq; eauto ..|by apply elem_of_nil in Hkey].
    + intros Lh Ll key s Hkey. unfold cloud_columns in Hkey.
      repeat (apply elem_of_cons in Hkey as [->|Hkey]);
        [..|by apply elem_of_nil in Hkey]; simplify_map_eq; intros [= <-].
      * rewrite length_tenkan; lia.
      * rewrite length_kijun; lia.
      * rewrite length_senkou_a; lia.
      * rewrite length_senkou_b; lia.
Qed.

Lemma add_ichimoku_frame_witness :
  add_ichimoku no_high_frame = Raise (KeyError "High")
  ∧ ∃ df', add_ichimoku (frame_of rising) = Ok df' ∧ nrows df' = 100%nat.
Proof.
  split.
  - apply (add_ichimoku_frame no_high_frame). reflexivity.
  - destruct (add_ichimoku_frame (frame_of rising)) as (_ & _ & H).
    destruct (H (numbers (highs rising)) (numbers (lows rising)))
      as (df' & Hdf & Hn & _); [reflexivity..|].
    exists df'. split; [exact Hdf|exact Hn].
Defined.

(** X2. [add_macd] raises [KeyError] for [Close] when that column is
    missing.  Otherwise it succeeds: the row count and every column other
    than [MACD] and [MACD_Signal] are unchanged, and those two columns are
    present afterwards with exactly as many cells as [Close]. *)
Theorem add_macd_frame (df : DataFrame) :
  (columns df !! "Close" = None → add_macd df = Raise (KeyError "Close"))
  ∧ (∀ c, columns df !! "Close" = Some c →
     ∃ df' m s,
       add_macd df = Ok df'
       ∧ nrows df' = nrows df
       ∧ (∀ key, key ∉ momentum_columns →
                 columns df' !! key = columns df !! key)
       ∧ columns df' !! "MACD" = Some m
       ∧ columns df' !! "MACD_Signal" = Some s
       ∧ length m = length c ∧ length s = length c).
Proof.
  split.
  - intros Hc. unfold add_macd, add_macd_with, getitem. by rewrite Hc.
  - intros c Hc. eexists _, (macd_of c), (signal_of c).
    split; [by apply add_macd_columns|]. simpl.
    rewrite length_macd_of, length_signal_of. split_and!; try done.
    + intros key Hkey. unfold momentum_columns in Hkey.
      rewrite !lookup_insert_ne; [done|set_solver..].
    + by simplify_map_eq.
    + by simplify_map_eq.
Qed.

Lemma add_macd_frame_witness :
  add_macd no_close_frame = Raise (KeyError "Close")
  ∧ ∃ df', add_macd (frame_of rising) = Ok df' ∧ nrows df' = 100%nat.
Proof.
  split.
  - apply (add_macd_frame no_close_frame). reflexivity.
  - destruct (add_macd_frame (frame_of rising)) as (_ & H).
    destruct (H (numbers (closes rising))) as (df' & m & s & Hdf & Hn & _);
      [reflexivity|].
    exists df'. split; [exact Hdf|exact Hn].
Defined.

(** ** Where the evaluator raises *)

Lemma iloc_neg_last (s : list (option Qc)) v :
  iloc_neg s 1 = Ok v ↔ last s = Some v.
Proof.
  unfold iloc_neg. rewrite last_lookup.
  replace (pred (length s)) with (length s - 1)%nat by lia.
  case_decide as Hl.
  - destruct (s !! (length s - 1)%nat) eqn:E; [|done]. split; congruence.
  - split; [done|]. intros Hv. apply lookup_lt_Some in Hv. lia.
Qed.

(** X3. The evaluator answers false on every frame of fewer than 100
    rows, whatever its columns (it reads none of them).  From 100 rows on
    it raises [KeyError] for [High] when that column is missing and for
    [Low] when only that one is missing; and when highs and lows are there
    (one cell per row) but [Close] is not, it answers false if the latest
    leading span A or B is NaN and raises [KeyError] for [Close]
    otherwise: the close is only read once both spans are numbers. *)
Theorem is_above_cloud_error_behaviour (df : DataFrame) :
  ((len df < 100)%nat → is_above_cloud df = Ok false)
  ∧ ((100 ≤ len df)%nat →
     (columns df !! "High" = None → is_above_cloud df = Raise (KeyError "High"))
     ∧ (is_Some (columns df !! "High") → columns df !! "Low" = None →
        is_above_cloud df = Raise (KeyError "Low"))
     ∧ (∀ h l, columns df !! "High" = Some h → columns df !! "Low" = Some l →
        length h = nrows df → length l = nrows df →
        columns df !! "Close" = None →
        ∃ a b, last (senkou_a_of h l) = Some a
               ∧ last (senkou_b_of h l) = Some b
               ∧ is_above_cloud df
                 = if isna a || isna b then Ok false
                   else Raise (KeyError "Close"))).
Proof.
  split; [apply is_above_cloud_short|]. intros Hlen. split_and!.
  - intros Hh. unfold is_above_cloud. rewrite decide_False by lia.
    unfold add_ichimoku, getitem. by rewrite Hh.
  - intros [h Hh] Hl. unfold is_above_cloud. rewrite decide_False by lia.
    unfold add_ichimoku, getitem. rewrite Hh. simpl. by rewrite Hl.
  - intros h l Hh Hl Lh Ll Hc. unfold len in Hlen.
    destruct (iloc_neg_ok (senkou_a_of h l) 1) as (a & Ha & _).
    { rewrite length_senkou_a; lia. }
    destruct (iloc_neg_ok (senkou_b_of h l) 1) as (b & Hb & _).
    { rewrite length_senkou_b; lia. }
    exists a, b. split_and!; [by apply iloc_neg_last..|].
    assert (∃ df', add_ichimoku df = Ok df'
      ∧ getitem df' "Senkou_A" = Ok (senkou_a_of h l)
      ∧ getitem df' "Senkou_B" = Ok (senkou_b_of h l)
      ∧ getitem df' "Close" = Raise (KeyError "Close"))
      as (df' & Hadd & Ga & Gb & Gc).
    { eexists. split; [by apply add_ichimoku_columns|].
      unfold getitem. simpl. by simplify_map_eq. }
    unfold is_above_cloud. rewrite decide_False by (unfold len; lia).
    rewrite Hadd. simpl. rewrite Ga. simpl. rewrite Ha. simpl.
    destruct (isna a); [done|]. simpl.
    rewrite Gb. simpl. rewrite Hb. simpl.
    destruct (isna b); [done|]. simpl. by rewrite Gc.
Qed.

Lemma is_above_cloud_error_behaviour_witness :
  is_above_cloud no_high_frame = Raise (KeyError "High")
  ∧ is_above_cloud (mkFrame 99 ∅) = Ok false.
Proof.
  split.
  - apply (is_above_cloud_error_behaviour no_high_frame);
      [vm_compute; lia|reflexivity].
  - apply (is_above_cloud_error_behaviour (mkFrame 99 ∅)). vm_compute. lia.
Defined.

Example is_above_cloud_without_close :
  is_above_cloud no_close_frame = Raise (KeyError "Close")
  ∧ is_above_cloud
      (mkFrame 100 (<["High" := replicate 99 (Some 1) ++ [None]]>
                    (<["Low" := replicate 100 (Some 1)]> ∅)))
    = Raise (KeyError "Close")
  ∧ is_above_cloud
      (mkFrame 100 (<["High" := replicate 60 (Some 1) ++ [None]
                                ++ replicate 39 (Some 1)]>
                    (<["Low" := replicate 100 (Some 1)]> ∅)))
    = Ok false.
Proof. split_and!; by_evaluation. Qed.

(** ** The provider calls of the pipeline *)

Lemma is_bullish_body_run fetch ticker log :
  is_bullish_body fetch ticker log =
    match fetch ticker "3y" "1d" with
    | Raise e => (Raise e, log ++ [daily_call ticker])
    | Ok daily =>
        match daily_stage daily with
        | Ok true =>
            match fetch ticker "730d" "60m" with
            | Raise e =>
                (Raise e, log ++ [daily_call ticker] ++ [hourly_call ticker])
            | Ok hourly =>
                let log' := log ++ [daily_call ticker] ++ [hourly_call ticker]
                                ++ [minute_call ticker] in
                match fetch ticker "7d" "1m" with
                | Raise e => (Raise e, log')
                | Ok minute => (intraday_stage hourly minute, log')
                end
            end
        | Ok false => (Ok false, log ++ [daily_call ticker])
        | Raise e => (Raise e, log ++ [daily_call ticker])
        end
    end.
Proof.
  unfold is_bullish_body, download, daily_stage, intraday_stage, lift,
    daily_call, hourly_call, minute_call.
  unfold mbind, M_bind, mret, M_ret, result_bind.
  destruct (fetch ticker "3y" "1d") as [daily|e]; [|done].
  destruct (empty daily || bool_decide (len daily < 100)%nat); [done|].
  destruct (is_above_cloud daily) as [above|e]; [|done].
  destruct (add_macd daily) as [dm|e]; [|done].
  destruct (macd_undefined dm) as [[]|e]; [done| |done].
  destruct (macd_cross dm) as [cross|e]; [|done].
  destruct (above && cross); simpl; [|done].
  destruct (fetch ticker "730d" "60m") as [hourly|e];
    [|by rewrite <- !(assoc_L (++))].
  destruct (fetch ticker "7d" "1m") as [minute|e];
    [|by rewrite <- !(assoc_L (++))].
  destruct (empty hourly || empty minute); [by rewrite <- !(assoc_L (++))|].
  destruct (is_above_cloud hourly) as [ah|e]; [|by rewrite <- !(assoc_L (++))].
  destruct (is_above_cloud minute) as [am|e]; by rewrite <- !(assoc_L (++)).
Qed.

(** X4. [is_bullish] extends the call log by one, two or three calls, all
    for its own ticker: the daily download alone; daily and hourly exactly
    when the daily check passes and the hourly download raises; all three
    exactly when the daily check passes and the hourly download answers.
    The minute download is thus issued whatever the hourly frame holds
    (an empty hourly frame does not save the minute call), and a
    QUALIFIES verdict always comes with all three calls. *)
Theorem is_bullish_calls
    (fetch : string → string → string → result DataFrame)
    (ticker : string) (log : list call) :
  let daily_ok :=
    ∃ daily, fetch ticker "3y" "1d" = Ok daily ∧ daily_check_passes daily in
  ∃ b calls,
    is_bullish fetch ticker log = (Ok b, log ++ calls)
    ∧ (calls = [daily_call ticker]
       ∨ calls = [daily_call ticker; hourly_call ticker]
       ∨ calls = [daily_call ticker; hourly_call ticker; minute_call ticker])
    ∧ (calls = [daily_call ticker; hourly_call ticker]
       ↔ daily_ok ∧ ∃ e, fetch ticker "730d" "60m" = Raise e)
    ∧ (calls = [daily_call ticker; hourly_call ticker; minute_call ticker]
       ↔ daily_ok ∧ ∃ hourly, fetch ticker "730d" "60m" = Ok hourly)
    ∧ (b = true →
       calls = [daily_call ticker; hourly_call ticker; minute_call ticker])
    ∧ Forall (λ c, c_ticker c = ticker) calls.
Proof.
  intros daily_ok. rewrite is_bullish_run.
  assert (∀ daily, fetch ticker "3y" "1d" = Ok daily →
            daily_stage daily ≠ Ok true → ¬ daily_ok) as Hnot.
  { intros daily Hd Hs (daily' & Hd' & Hp). apply Hs, daily_stage_true.
    congruence. }
  assert (∀ b : bool,
    ∃ b' calls,
      (Ok b, log ++ [daily_call ticker]) = (Ok b', log ++ calls)
      ∧ (calls = [daily_call ticker]
         ∨ calls = [daily_call ticker; hourly_call ticker]
         ∨ calls = [daily_call ticker; hourly_call ticker; minute_call ticker])
      ∧ calls ≠ [daily_call ticker; hourly_call ticker]
      ∧ calls ≠ [daily_call ticker; hourly_call ticker; minute_call ticker]
      ∧ (b' = b) ∧ Forall (λ c, c_ticker c = ticker) calls) as Hone.
  { intros b. exists b, [daily_call ticker].
    split_and!; try done; [by left|by repeat constructor]. }
  destruct (fetch ticker "3y" "1d") as [daily|e] eqn:Hd.
  2:{ destruct (Hone false) as (b' & calls & -> & Hc & H2 & H3 & -> & Hall).
      exists false, calls. split_and!; try done.
      - split; [done|]. by intros [(? & [=] & _) _].
      - split; [done|]. by intros [(? & [=] & _) _]. }
  destruct (daily_stage daily) as [[]|e] eqn:Hs.
  2,3: (destruct (Hone false) as (b' & calls & -> & Hc & H2 & H3 & -> & Hall);
        exists false, calls; split_and!; try done;
        (split; [done|]; intros [Hok _]; exfalso;
         by apply (Hnot daily eq_refl); [rewrite Hs|])).
  assert daily_ok as Hok.
  { exists daily. split; [done|]. by apply daily_stage_true. }
  destruct (fetch ticker "730d" "60m") as [hourly|e] eqn:Hh.
  - exists (match fetch ticker "7d" "1m" with
            | Ok minute => match intraday_stage hourly minute with
                           | Ok b => b | Raise _ => false end
            | Raise _ => false end),
      [daily_call ticker; hourly_call ticker; minute_call ticker].
    split_and!.
    + simpl. destruct (fetch ticker "7d" "1m") as [minute|?]; [|done].
      by destruct (intraday_stage hourly minute).
    + by right; right.
    + split; [done|]. by intros [_ [? [=]]].
    + split; [eauto|done].
    + done.
    + by repeat constructor.
  - exists false, [daily_call ticker; hourly_call ticker].
    split_and!; try done.
    + by right; left.
    + split; [eauto|done].
    + split; [done|]. by intros [_ [? [=]]].
    + by repeat constructor.
Qed.

Lemma is_bullish_calls_witness :
  ∃ b,
    is_bullish (λ t p i, if String.eqb p "730d" then Raise IndexError
                         else Ok (frame_of rising)) "AAA" []
    = (Ok b, [daily_call "AAA"; hourly_call "AAA"]).
Proof.
  destruct (is_bullish_calls
              (λ t p i, if String.eqb p "730d" then Raise IndexError
                        else Ok (frame_of rising)) "AAA" [])
    as (b & calls & Hrun & _ & H2 & _).
  exists b. rewrite Hrun. simpl. f_equal. apply H2. split.
  - exists (frame_of rising). split; [reflexivity|].
    apply daily_stage_true. vm_compute. reflexivity.
  - exists IndexError. reflexivity.
Defined.

(** ** What a QUALIFIES verdict needs *)

Lemma is_above_cloud_true_long df :
  is_above_cloud df = Ok true → (100 ≤ len df)%nat.
Proof.
  intros H. destruct (decide (len df < 100)%nat) as [Hs|]; [|lia].
  rewrite is_above_cloud_short in H by done. done.
Qed.

(** X5. The pipeline tests the hourly and the minute frame for emptiness
    only, yet a QUALIFIES verdict needs at least 100 rows on all three
    timeframes: the evaluator's own length test decides. *)
Theorem qualifying_needs_100_rows_on_every_timeframe
    (fetch : string → string → string → result DataFrame)
    (ticker : string) (log : list call)
    (Hq : (is_bullish fetch ticker log).1 = Ok true) :
  ∃ daily hourly minute,
    fetch ticker "3y" "1d" = Ok daily
    ∧ fetch ticker "730d" "60m" = Ok hourly
    ∧ fetch ticker "7d" "1m" = Ok minute
    ∧ (100 ≤ len daily)%nat ∧ (100 ≤ len hourly)%nat ∧ (100 ≤ len minute)%nat.
Proof.
  apply is_bullish_true_iff in Hq
    as (daily & hourly & minute & Hd & (_ & Hl & _) & Hh & Hm & _ & _
        & Hah &Ham).
  exists daily, hourly, minute.
  split_and!; try done; by apply is_above_cloud_true_long.
Qed.

Lemma qualifying_needs_100_rows_on_every_timeframe_witness :
  ∃ daily hourly minute,
    example_fetch "AAA" "3y" "1d" = Ok daily
    ∧ example_fetch "AAA" "730d" "60m" = Ok hourly
    ∧ example_fetch "AAA" "7d" "1m" = Ok minute
    ∧ (100 ≤ len daily)%nat ∧ (100 ≤ len hourly)%nat ∧ (100 ≤ len minute)%nat.
Proof.
  apply (qualifying_needs_100_rows_on_every_timeframe example_fetch "AAA" []).
  vm_compute. reflexivity.
Defined.

Example ninety_nine_minute_bars_disqualify :
  is_bullish (λ t p i, if String.eqb p "7d"
                       then Ok (frame_of (flat 98 1 1 1 ++ [mkBar 2 1 2]))
                       else Ok (frame_of rising)) "AAA" []
  = (Ok false, [daily_call "AAA"; hourly_call "AAA"; minute_call "AAA"]).
Proof. by_evaluation. Qed.

(** ** No exception on well-formed frames *)

Lemma macd_cross_total dm m s :
  getitem dm "MACD" = Ok m → getitem dm "MACD_Signal" = Ok s →
  (2 ≤ length m)%nat → (2 ≤ length s)%nat →
  ∃ m2 s2 m1 s1,
    iloc_neg m 2 = Ok m2 ∧ iloc_neg s 2 = Ok s2
    ∧ iloc_neg m 1 = Ok m1 ∧ iloc_neg s 1 = Ok s1
    ∧ macd_cross dm = Ok (le m2 s2 && gt m1 s1).
Proof.
  intros Gm Gs Lm Ls.
  destruct (iloc_neg_ok m 2) as (m2 & Hm2 & _); [lia|].
  destruct (iloc_neg_ok s 2) as (s2 & Hs2 & _); [lia|].
  destruct (iloc_neg_ok m 1) as (m1 & Hm1 & _); [lia|].
  destruct (iloc_neg_ok s 1) as (s1 & Hs1 & _); [lia|].
  exists m2, s2, m1, s1. split_and!; try done.
  unfold macd_cross. rewrite Gm. simpl. rewrite Hm2. simpl.
  rewrite Gs. simpl. rewrite Hs2. simpl.
  destruct (le m2 s2); [|done]. simpl.
  rewrite Hm1. simpl. by rewrite Hs1.
Qed.

Lemma daily_stage_total df : price_frame df → ∃ b, daily_stage df = Ok b.
Proof.
  intros Hpf. unfold daily_stage.
  destruct (empty df); simpl; [eauto|].
  case_bool_decide as Hlen; [eauto|].
  destruct (is_above_cloud_total df Hpf) as [above ->]. simpl.
  destruct (Hpf "Close") as (c & Hc & Lc); [set_solver|].
  destruct (add_macd_getitem df c Hc) as (dm & -> & Gm & Gs). simpl.
  unfold len in Hlen.
  destruct (macd_cross_total dm _ _ Gm Gs)
    as (m2 & s2 & m1 & s1 & _ & _ & Hm1 & _ & ->).
  { rewrite length_macd_of. lia. }
  { rewrite length_signal_of. lia. }
  unfold macd_undefined. rewrite Gm. simpl. rewrite Hm1. simpl.
  destruct (isna m1); simpl; eauto.
Qed.

Lemma intraday_stage_total hourly minute :
  price_frame hourly → price_frame minute →
  ∃ b, intraday_stage hourly minute = Ok b.
Proof.
  intros Hh Hm. unfold intraday_stage.
  destruct (empty hourly || empty minute); [eauto|].
  destruct (is_above_cloud_total hourly Hh) as [a ->].
  destruct (is_above_cloud_total minute Hm) as [b ->]. simpl. eauto.
Qed.

(** X6. When every frame the provider hands over for a ticker carries the
    three price columns with one cell per row (NaN cells allowed; empty
    and short frames included), the body of [is_bullish] returns a verdict
    without raising: the [except] branch only ever handles provider
    exceptions and malformed frames.  In particular [iloc[-2]] never runs
    out of range, because the 100-row guard comes first. *)
Theorem is_bullish_body_never_raises_on_price_frames
    (fetch : string → string → string → result DataFrame)
    (ticker : string) (log : list call)
    (Hfetch : ∀ period interval,
        ∃ df, fetch ticker period interval = Ok df ∧ price_frame df) :
  ∃ b log',
    is_bullish_body fetch ticker log = (Ok b, log')
    ∧ is_bullish fetch ticker log = (Ok b, log').
Proof.
  assert (∃ b log', is_bullish_body fetch ticker log = (Ok b, log'))
    as (b & log' & Hbody).
  { rewrite is_bullish_body_run.
    destruct (Hfetch "3y" "1d") as (daily & -> & Hd).
    destruct (daily_stage_total daily Hd) as [[] ->]; [|eauto].
    destruct (Hfetch "730d" "60m") as (hourly & -> & Hh).
    destruct (Hfetch "7d" "1m") as (minute & -> & Hm). simpl.
    destruct (intraday_stage_total hourly minute Hh Hm) as [b ->]. eauto. }
  exists b, log'. split; [done|].
  unfold is_bullish, try_except. by rewrite Hbody.
Qed.

Lemma is_bullish_body_never_raises_on_price_frames_witness :
  ∃ b log',
    is_bullish_body example_fetch "BBB" [] = (Ok b, log')
    ∧ is_bullish example_fetch "BBB" [] = (Ok b, log').
Proof.
  apply (is_bullish_body_never_raises_on_price_frames example_fetch "BBB" []).
  intros period interval. exists (frame_of []). split; [reflexivity|].
  intros key Hkey.
  repeat (apply elem_of_cons in Hkey as [->|Hkey]);
    [eexists; split; [vm_compute; reflexivity|vm_compute; reflexivity] ..
    |by apply elem_of_nil in Hkey].
Defined.

Example the_guard_and_the_handler_are_needed :
  (dm ← add_macd (frame_of [mkBar 1 1 1]); macd_cross dm) = Raise IndexError
  ∧ is_bullish_body failing_fetch "AAA" []
    = (Raise (ProviderError "no data"), [daily_call "AAA"]).
Proof. split; by_evaluation. Qed.

(** ** NaN closes and the momentum columns *)

(** X7. With NaN cells in the [Close] column, the oscillator and the
    signal at a row are NaN exactly when no close up to that row is a
    number: smoothing starts at the first observation and carries past
    later gaps.  So the test [pd.isna(daily_data['MACD'].iloc[-1])] of the
    pipeline is true exactly when every close of the frame is NaN. *)
Theorem momentum_is_nan_until_the_first_close
    (df : DataFrame) (c : list (option Qc))
    (Hc : columns df !! "Close" = Some c) :
  ∃ dm m s,
    add_macd df = Ok dm
    ∧ getitem dm "MACD" = Ok m ∧ getitem dm "MACD_Signal" = Ok s
    ∧ (∀ i, (i < length c)%nat →
         (m !! i = Some None ↔ ∀ j, (j ≤ i)%nat → c !! j = Some None)
         ∧ (s !! i = Some None ↔ ∀ j, (j ≤ i)%nat → c !! j = Some None))
    ∧ (c ≠ [] →
       ∃ b, macd_undefined dm = Ok b
            ∧ (b = true ↔ Forall (λ v, v = None) c)).
Proof.
  destruct (add_macd_getitem df c Hc) as (dm & Hdm & Gm & Gs).
  exists dm, (macd_of c), (signal_of c). split_and!; try done.
  - intros i Hi. split; [by apply macd_of_nan|by apply signal_of_nan].
  - intros Hne.
    destruct (iloc_neg_ok (macd_of c) 1) as (v & Hv & Hl).
    { rewrite length_macd_of. destruct c; [done|simpl; lia]. }
    exists (isna v). split.
    { unfold macd_undefined. rewrite Gm. simpl. by rewrite Hv. }
    rewrite length_macd_of in Hl.
    assert (length c - 1 < length c)%nat as Hlt
      by (destruct c; [done|simpl; lia]).
    rewrite Forall_lookup. destruct v as [x|]; simpl.
    + split; [done|]. intros H.
      assert (macd_of c !! (length c - 1)%nat = Some None) as E.
      { apply macd_of_nan; [done|]. intros j Hj.
        destruct (lookup_lt_is_Some_2 c j) as [w Hw]; [lia|].
        rewrite Hw. f_equal. by apply (H j). }
      congruence.
    + split; [|done]. intros _ j w Hw.
      pose proof (lookup_lt_Some _ _ _ Hw) as Hj.
      apply (macd_of_nan c _ Hlt) with (j := j) in Hl; [|lia]. congruence.
Qed.

Lemma momentum_is_nan_until_the_first_close_witness :
  ∃ dm b,
    add_macd (mkFrame 3 {["Close" := [None; Some 1; None]]}) = Ok dm
    ∧ macd_undefined dm = Ok b
    ∧ (b = true ↔ Forall (λ v, v = None) [None; Some 1; None]).
Proof.
  destruct (momentum_is_nan_until_the_first_close
              (mkFrame 3 {["Close" := [None; Some 1; None]]})
              [None; Some 1; None])
    as (dm & m & s & Hdm & _ & _ & _ & H); [vm_compute; reflexivity|].
  destruct H as (b & Hb & Hiff); [discriminate|].
  exists dm, b. split; [exact Hdm|]. split; [exact Hb|exact Hiff].
Defined.

Example momentum_with_nan_closes :
  (dm ← add_macd (mkFrame 3 {["Close" := [None; Some 1; None]]});
   getitem dm "MACD") = Ok [None; Some 0; Some 0]
  ∧ (dm ← add_macd (mkFrame 2 {["Close" := [None; None]]});
     macd_undefined dm) = Ok true.
Proof. split; by_evaluation. Qed.

(** ** No look-ahead: later bars never change earlier cells *)

Lemma ewm_go_take al w ow vals n :
  ewm_go al w ow (take n vals) = take n (ewm_go al w ow vals).
Proof.
  revert w ow n. induction vals as [|cur rest IH]; intros w ow [|n];
    simpl; try done.
  destruct w, cur; simpl; by rewrite IH.
Qed.

Lemma ewm_mean_take span vals n :
  ewm_mean span (take n vals) = take n (ewm_mean span vals).
Proof. destruct vals, n; simpl; try done. by rewrite ewm_go_take. Qed.

Lemma macd_of_take c n : macd_of (take n c) = take n (macd_of c).
Proof.
  unfold macd_of, series_sub. by rewrite !ewm_mean_take, zip_with_take.
Qed.

Lemma signal_of_take c n : signal_of (take n c) = take n (signal_of c).
Proof. unfold signal_of. by rewrite macd_of_take, ewm_mean_take. Qed.

(** X8. The oscillator and the signal look back only: when a [Close]
    column is extended by further rows, the [MACD] and [MACD_Signal] cells
    of the rows that were already there stay exactly as they were (NaN
    cells included). *)
Theorem momentum_has_no_look_ahead
    (df df' : DataFrame) (c more : list (option Qc))
    (Hc : columns df !! "Close" = Some c)
    (Hc' : columns df' !! "Close" = Some (c ++ more)) :
  ∃ dm dm' m s m' s',
    add_macd df = Ok dm ∧ add_macd df' = Ok dm'
    ∧ getitem dm "MACD" = Ok m ∧ getitem dm "MACD_Signal" = Ok s
    ∧ getitem dm' "MACD" = Ok m' ∧ getitem dm' "MACD_Signal" = Ok s'
    ∧ m = take (length c) m' ∧ s = take (length c) s'.
Proof.
  destruct (add_macd_getitem df c Hc) as (dm & Hdm & Gm & Gs).
  destruct (add_macd_getitem df' _ Hc') as (dm' & Hdm' & Gm' & Gs').
  exists dm, dm', (macd_of c), (signal_of c), (macd_of (c ++ more)),
    (signal_of (c ++ more)).
  split_and!; try done.
  - by rewrite <- macd_of_take, take_app_length.
  - by rewrite <- signal_of_take, take_app_length.
Qed.

Lemma momentum_has_no_look_ahead_witness :
  ∃ m m',
    (dm ← add_macd (frame_of (take 3 ramp_closes)); getitem dm "MACD") = Ok m
    ∧ (dm ← add_macd (frame_of ramp_closes); getitem dm "MACD") = Ok m'
    ∧ m = take 3 m'.
Proof.
  destruct (momentum_has_no_look_ahead
              (frame_of (take 3 ramp_closes)) (frame_of ramp_closes)
              (numbers (closes (take 3 ramp_closes)))
              [Some 2])
    as (dm & dm' & m & s & m' & s' & Hdm & Hdm' & Gm & _ & Gm' & _ & Hm & _);
    [reflexivity..|].
  exists m, m'. rewrite Hdm, Hdm'. split; [exact Gm|]. split; [exact Gm'|].
  exact Hm.
Defined.

Lemma rolling_take agg w s n :
  rolling agg w (take n s) = take n (rolling agg w s).
Proof.
  apply list_eq. intros i. rewrite rolling_lookup.
  destruct (decide (i < n)%nat) as [Hi|Hi].
  - rewrite !lookup_take_lt by done. rewrite rolling_lookup.
    destruct (s !! i); simpl; [|done]. f_equal. unfold window.
    case_decide as Hw; [|done]. simpl.
    replace (take w (drop (S i - w) (take n s)))
      with (take w (drop (S i - w) s)); [done|].
    rewrite !take_drop_commute, take_take.
    by replace ((S i - w + w) `min` n)%nat with (S i - w + w)%nat by lia.
  - rewrite !lookup_take_ge by lia. done.
Qed.

Lemma shift_take k s n : shift k (take n s) = take n (shift k s).
Proof.
  apply list_eq. intros i. rewrite shift_lookup, length_take.
  destruct (decide (i < n)%nat) as [Hi|Hi].
  - rewrite (lookup_take_lt (shift k s)) by done. rewrite shift_lookup.
    repeat case_decide; try done; try lia.
    by rewrite lookup_take_lt by lia.
  - rewrite (lookup_take_ge (shift k s)) by lia. case_decide; [lia|done].
Qed.

Lemma series_half_take a n : series_half (take n a) = take n (series_half a).
Proof. unfold series_half. by rewrite fmap_take. Qed.

Lemma series_add_take a b n :
  series_add (take n a) (take n b) = take n (series_add a b).
Proof. unfold series_add. by rewrite zip_with_take. Qed.

Lemma cloud_columns_take h l n :
  tenkan_of (take n h) (take n l) = take n (tenkan_of h l)
  ∧ kijun_of (take n h) (take n l) = take n (kijun_of h l)
  ∧ senkou_a_of (take n h) (take n l) = take n (senkou_a_of h l)
  ∧ senkou_b_of (take n h) (take n l) = take n (senkou_b_of h l).
Proof.
  unfold senkou_a_of, senkou_b_of, tenkan_of, kijun_of, rolling_max,
    rolling_min.
  by rewrite !rolling_take, !series_add_take, !series_half_take,
    !series_add_take, !series_half_take, !shift_take.
Qed.

(** X9. The cloud looks back only: when the [High] and [Low] columns are
    extended by further rows, the conversion line, the base line and both
    leading spans keep, on the rows that were already there, exactly the
    cells they had. *)
Theorem cloud_has_no_look_ahead
    (df df' : DataFrame) (h l h' l' : list (option Qc))
    (Hh : columns df !! "High" = Some h) (Hl : columns df !! "Low" = Some l)
    (Hh' : columns df' !! "High" = Some (h ++ h'))
    (Hl' : columns df' !! "Low" = Some (l ++ l'))
    (Hlen : length h = length l) :
  ∃ r r',
    add_ichimoku df = Ok r ∧ add_ichimoku df' = Ok r'
    ∧ ∀ key, key ∈ cloud_columns →
        ∃ s s', columns r !! key = Some s ∧ columns r' !! key = Some s'
                ∧ s = take (length h) s'.
Proof.
  eexists _, _. split; [by apply add_ichimoku_columns|].
  split; [by apply add_ichimoku_columns|].
  destruct (cloud_columns_take (h ++ h') (l ++ l') (length h))
    as (Ht & Hk & Ha & Hb).
  rewrite take_app_length in Ht, Hk, Ha, Hb.
  rewrite Hlen, take_app_length, <- Hlen in Ht, Hk, Ha, Hb.
  intros key Hkey. unfold cloud_columns in Hkey. simpl.
  repeat (apply elem_of_cons in Hkey as [->|Hkey]);
    [..|by apply elem_of_nil in Hkey]; eexists _, _;
    (split; [by simplify_map_eq|]); (split; [by simplify_map_eq|]); done.
Qed.

Lemma cloud_has_no_look_ahead_witness :
  ∃ r r' s s',
    add_ichimoku (frame_of (flat 99 1 1 1)) = Ok r
    ∧ add_ichimoku (frame_of rising) = Ok r'
    ∧ columns r !! "Senkou_B" = Some s ∧ columns r' !! "Senkou_B" = Some s'
    ∧ s = take 99 s'.
Proof.
  destruct (cloud_has_no_look_ahead (frame_of (flat 99 1 1 1)) (frame_of rising)
              (numbers (highs (flat 99 1 1 1))) (numbers (lows (flat 99 1 1 1)))
              [Some 2] [Some 1])
    as (r & r' & Hr & Hr' & H); [reflexivity..|].
  destruct (H "Senkou_B") as (s & s' & Hs & Hs' & E).
  { unfold cloud_columns. set_solver. }
  exists r, r', s, s'. split_and!; try assumption.
Defined.

(** ** Which rows the cloud position reads *)

Lemma window_local w i (s s' : list (option Qc)) :
  (∀ j, (S i - w ≤ j ≤ i)%nat → s !! j = s' !! j) →
  window w i s = window w i s'.
Proof.
  intros H. unfold window. case_decide as Hw; [|done]. f_equal.
  apply list_eq. intros j.
  destruct (decide (j < w)%nat) as [Hj|Hj].
  - rewrite !lookup_take_lt, !lookup_drop by done. apply H. lia.
  - by rewrite !lookup_take_ge by lia.
Qed.

Lemma rolling_local agg w i (s s' : list (option Qc)) :
  (0 < w)%nat →
  (∀ j, (S i - w ≤ j ≤ i)%nat → s !! j = s' !! j) →
  rolling agg w s !! i = rolling agg w s' !! i.
Proof.
  intros Hw H. rewrite !rolling_lookup, (window_local w i s s' H).
  by rewrite (H i) by lia.
Qed.

Lemma cloud_cells_local h l h' l' i :
  (∀ j, (i - 51 ≤ j ≤ i)%nat → h !! j = h' !! j ∧ l !! j = l' !! j) →
  series_half (series_add (tenkan_of h l) (kijun_of h l)) !! i
  = series_half (series_add (tenkan_of h' l') (kijun_of h' l')) !! i
  ∧ series_half (series_add (rolling_max 52 h) (rolling_min 52 l)) !! i
    = series_half (series_add (rolling_max 52 h') (rolling_min 52 l')) !! i.
Proof.
  intros H.
  assert (∀ agg w, (0 < w ≤ 52)%nat →
            rolling agg w h !! i = rolling agg w h' !! i
            ∧ rolling agg w l !! i = rolling agg w l' !! i) as Hr.
  { intros agg w Hw.
    split; (apply rolling_local; [lia|]); intros j Hj; apply H; lia. }
  unfold tenkan_of, kijun_of, series_half, series_add, rolling_max,
    rolling_min.
  rewrite !list_lookup_fmap, !lookup_zip_with, !list_lookup_fmap,
    !lookup_zip_with.
  destruct (Hr Qcmax 9%nat) as [-> _]; [lia|].
  destruct (Hr Qcmin 9%nat) as [_ ->]; [lia|].
  destruct (Hr Qcmax 26%nat) as [-> _]; [lia|].
  destruct (Hr Qcmin 26%nat) as [_ ->]; [lia|].
  destruct (Hr Qcmax 52%nat) as [-> _]; [lia|].
  destruct (Hr Qcmin 52%nat) as [_ ->]; [lia|].
  done.
Qed.

Lemma is_above_cloud_cells df h l c a b cv :
  columns df !! "High" = Some h → columns df !! "Low" = Some l →
  columns df !! "Close" = Some c →
  (100 ≤ len df)%nat →
  last (senkou_a_of h l) = Some a → last (senkou_b_of h l) = Some b →
  last c = Some cv →
  is_above_cloud df
  = Ok (if isna a then false else if isna b then false
        else gt cv (py_max a b)).
Proof.
  intros Hh Hl Hc Hlen Ha Hb Hcv.
  assert (∃ df', add_ichimoku df = Ok df'
    ∧ getitem df' "Senkou_A" = Ok (senkou_a_of h l)
    ∧ getitem df' "Senkou_B" = Ok (senkou_b_of h l)
    ∧ getitem df' "Close" = Ok c) as (df' & Hadd & Ga & Gb & Gc).
  { eexists. split; [by apply add_ichimoku_columns|].
    unfold getitem. simpl. by simplify_map_eq. }
  apply iloc_neg_last in Ha, Hb, Hcv.
  by apply (is_above_cloud_eval df df' _ _ _ a b cv Hlen Hadd Ga Ha Gb Hb Gc).
Qed.

(** X10. The cloud under the latest bar is built from older bars only:
    the verdict of the evaluator depends on the latest close and on the
    highs and lows of the 52 rows that end 26 rows before the latest one,
    and on nothing else.  Two Price Series of one length that agree there
    get the same answer, whatever their other bars hold. *)
Theorem cloud_position_reads_52_rows_26_back (bars1 bars2 : list Bar)
    (Hlen : length bars1 = length bars2)
    (Hrows : ∀ j b1 b2,
        (length bars1 ≤ j + 78)%nat → (j + 27 ≤ length bars1)%nat →
        bars1 !! j = Some b1 → bars2 !! j = Some b2 →
        High b1 = High b2 ∧ Low b1 = Low b2)
    (Hclose : Close <$> last bars1 = Close <$> last bars2) :
  is_above_cloud (frame_of bars1) = is_above_cloud (frame_of bars2).
Proof.
  destruct (decide (length bars1 < 100)%nat) as [Hshort|Hlong].
  { rewrite !is_above_cloud_short; [done|unfold len; simpl; lia..]. }
  set (n := length bars1) in *.
  set (h1 := numbers (highs bars1)). set (l1 := numbers (lows bars1)).
  set (h2 := numbers (highs bars2)). set (l2 := numbers (lows bars2)).
  assert (length h1 = n ∧ length l1 = n ∧ length h2 = n ∧ length l2 = n)
    as (Lh1 & Ll1 & Lh2 & Ll2).
  { unfold h1, l1, h2, l2, numbers, highs, lows. rewrite !length_fmap. lia. }
  assert (∀ j, (n - 27 - 51 ≤ j ≤ n - 27)%nat →
            h1 !! j = h2 !! j ∧ l1 !! j = l2 !! j) as Hcols.
  { intros j Hj. unfold h1, l1, h2, l2, numbers, highs, lows.
    rewrite !list_lookup_fmap.
    destruct (lookup_lt_is_Some_2 bars1 j) as [b1 Hb1]; [lia|].
    destruct (lookup_lt_is_Some_2 bars2 j) as [b2 Hb2]; [lia|].
    rewrite Hb1, Hb2. simpl.
    destruct (Hrows j b1 b2) as [-> ->]; try done; lia. }
  destruct (cloud_cells_local h1 l1 h2 l2 (n - 27) Hcols) as [Ea Eb].
  assert (last (senkou_a_of h1 l1) = last (senkou_a_of h2 l2)) as La.
  { rewrite !last_lookup, !length_senkou_a by lia. rewrite Lh1, Lh2.
    unfold senkou_a_of. rewrite !shift_lookup.
    rewrite !length_series_half, !length_series_add, !length_tenkan,
      !length_kijun by lia. rewrite Lh1, Lh2.
    repeat case_decide; try lia.
    by replace (pred n - 26)%nat with (n - 27)%nat by lia. }
  assert (last (senkou_b_of h1 l1) = last (senkou_b_of h2 l2)) as Lb.
  { rewrite !last_lookup, !length_senkou_b by lia. rewrite Lh1, Lh2.
    unfold senkou_b_of. rewrite !shift_lookup.
    rewrite !length_series_half, !length_series_add by lia.
    unfold rolling_max, rolling_min. rewrite !length_rolling.
    rewrite Lh1, Lh2, Ll1, Ll2.
    repeat case_decide; try lia.
    by replace (pred n - 26)%nat with (n - 27)%nat by lia. }
  assert (last (numbers (closes bars1)) = last (numbers (closes bars2))) as Lc.
  { unfold numbers, closes. rewrite <- !list_fmap_compose, !fmap_last.
    destruct (last bars1), (last bars2); simpl in *; congruence. }
  destruct (frame_of_columns bars1) as (Hh1 & Hl1 & Hc1).
  destruct (frame_of_columns bars2) as (Hh2 & Hl2 & Hc2).
  destruct (last (senkou_a_of h1 l1)) as [a|] eqn:Ha; cycle 1.
  { apply last_None in Ha. apply (f_equal length) in Ha.
    rewrite length_senkou_a in Ha by lia. simpl in Ha. lia. }
  destruct (last (senkou_b_of h1 l1)) as [b|] eqn:Hb; cycle 1.
  { apply last_None in Hb. apply (f_equal length) in Hb.
    rewrite length_senkou_b in Hb by lia. simpl in Hb. lia. }
  destruct (last (numbers (closes bars1))) as [cv|] eqn:Hcv; cycle 1.
  { apply last_None in Hcv. apply (f_equal length) in Hcv.
    unfold numbers, closes in Hcv. rewrite !length_fmap in Hcv.
    simpl in Hcv. lia. }
  rewrite (is_above_cloud_cells (frame_of bars1) _ _ _ a b cv Hh1 Hl1 Hc1);
    [|unfold len; simpl; lia|done..].
  rewrite (is_above_cloud_cells (frame_of bars2) _ _ _ a b cv Hh2 Hl2 Hc2);
    [done|unfold len; simpl; lia|done..].
Qed.

Lemma cloud_position_reads_52_rows_26_back_witness :
  is_above_cloud (frame_of (flat 74 1 1 1 ++ flat 25 (1 + 2) 1 2 ++ [mkBar 2 1 2]))
  = is_above_cloud (frame_of rising).
Proof.
  apply cloud_position_reads_52_rows_26_back.
  - reflexivity.
  - intros j b1 b2 H1 H2 Hb1 Hb2.
    assert (j < 74)%nat as Hj.
    { match type of H2 with
      | (_ ≤ ?x)%nat => replace x with 100%nat in H2 by reflexivity
      end. lia. }
    unfold rising in Hb2.
    rewrite lookup_app_l in Hb1 by (unfold flat; rewrite length_replicate; lia).
    rewrite lookup_app_l in Hb2 by (unfold flat; rewrite length_replicate; lia).
    unfold flat in *. apply lookup_replicate in Hb1 as [-> _].
    apply lookup_replicate in Hb2 as [-> _]. split; reflexivity.
  - reflexivity.
Defined.

Example recent_highs_do_not_move_the_cloud :
  is_above_cloud (frame_of (flat 74 1 1 1 ++ flat 25 (1 + 2) 1 2 ++ [mkBar 2 1 2]))
  = Ok true
  ∧ is_above_cloud (frame_of (flat 73 1 1 1 ++ flat 26 (1 + 2) 1 2 ++ [mkBar 2 1 2]))
    = Ok false.
Proof. split; by_evaluation. Qed.

(** ** Where the conversion and base lines are defined *)

Lemma foldl_Qcmax_spec v vs :
  foldl Qcmax v vs ∈ v :: vs ∧ ∀ x, x ∈ v :: vs → x ≤ foldl Qcmax v vs.
Proof.
  revert v. induction vs as [|y vs IH]; intros v; simpl.
  - split; [by left|]. intros x ->%list_elem_of_singleton. done.
  - destruct (IH (Qcmax v y)) as [Hin Hle].
    assert (v ≤ Qcmax v y ∧ y ≤ Qcmax v y ∧ Qcmax v y ∈ [v; y])
      as (Hv & Hy & Hm).
    { unfold Qcmax. case_bool_decide as H; split_and!; try done.
      - by right; left.
      - apply Qcnot_le_lt in H. by apply Qclt_le_weak.
      - by left. }
    split.
    + apply elem_of_cons in Hin as [Hin|Hin]; [|by do 2 right].
      rewrite Hin. apply elem_of_cons in Hm as [->|Hm]; [by left|].
      apply list_elem_of_singleton in Hm as ->. by right; left.
    + intros x Hx.
      apply elem_of_cons in Hx as [->|Hx].
      { etrans; [exact Hv|]. apply Hle. by left. }
      apply elem_of_cons in Hx as [->|Hx].
      { etrans; [exact Hy|]. apply Hle. by left. }
      apply Hle. by right.
Qed.

Lemma foldl_Qcmin_spec v vs :
  foldl Qcmin v vs ∈ v :: vs ∧ ∀ x, x ∈ v :: vs → foldl Qcmin v vs ≤ x.
Proof.
  revert v. induction vs as [|y vs IH]; intros v; simpl.
  - split; [by left|]. intros x ->%list_elem_of_singleton. done.
  - destruct (IH (Qcmin v y)) as [Hin Hle].
    assert (Qcmin v y ≤ v ∧ Qcmin v y ≤ y ∧ Qcmin v y ∈ [v; y])
      as (Hv & Hy & Hm).
    { unfold Qcmin. case_bool_decide as H; split_and!; try done.
      - by left.
      - apply Qcnot_le_lt in H. by apply Qclt_le_weak.
      - by right; left. }
    split.
    + apply elem_of_cons in Hin as [Hin|Hin]; [|by do 2 right].
      rewrite Hin. apply elem_of_cons in Hm as [->|Hm]; [by left|].
      apply list_elem_of_singleton in Hm as ->. by right; left.
    + intros x Hx.
      apply elem_of_cons in Hx as [->|Hx].
      { etrans; [|exact Hv]. apply Hle. by left. }
      apply elem_of_cons in Hx as [->|Hx].
      { etrans; [|exact Hy]. apply Hle. by left. }
      apply Hle. by right.
Qed.

Lemma rolling_extremes w bars i :
  (0 < w ≤ S i)%nat → (i < length bars)%nat →
  ∃ hi lo,
    rolling_max w (numbers (highs bars)) !! i = Some (Some hi)
    ∧ rolling_min w (numbers (lows bars)) !! i = Some (Some lo)
    ∧ extremes_of_window w bars i hi lo.
Proof.
  intros Hw Hi. unfold rolling_max, rolling_min.
  rewrite !rolling_numbers_lookup
    by (unfold highs, lows; rewrite length_fmap; lia).
  rewrite !decide_True by lia.
  unfold highs, lows, extremes_of_window. rewrite <- !fmap_drop, <- !fmap_take.
  set (win := take w (drop (S i - w) bars)).
  assert (win ≠ []) as Hne.
  { intros E. apply (f_equal length) in E. unfold win in E.
    rewrite length_take, length_drop in E. simpl in E. lia. }
  destruct win as [|b0 win'] eqn:Ewin; [done|].
  rewrite !fmap_cons. simpl.
  destruct (foldl_Qcmax_spec (High b0) (High <$> win')) as [Hin Hmax].
  destruct (foldl_Qcmin_spec (Low b0) (Low <$> win')) as [Hin' Hmin].
  exists (foldl Qcmax (High b0) (High <$> win')),
    (foldl Qcmin (Low b0) (Low <$> win')).
  split_and!; try done.
  - intros b Hb. apply Hmax. rewrite <- fmap_cons.
    by apply list_elem_of_fmap_2.
  - intros b Hb. apply Hmin. rewrite <- fmap_cons.
    by apply list_elem_of_fmap_2.
Qed.

Lemma range_line_defined w bars i :
  (0 < w ≤ S i)%nat → (i < length bars)%nat →
  defined_at (series_half (series_add (rolling_max w (numbers (highs bars)))
                                      (rolling_min w (numbers (lows bars))))) i.
Proof.
  intros Hw Hi.
  destruct (rolling_extremes w bars i Hw Hi) as (hi & lo & Hhi & Hlo & _).
  unfold defined_at, series_half, series_add.
  rewrite list_lookup_fmap, lookup_zip_with, Hhi, Hlo. simpl. by eexists.
Qed.

Lemma range_line_nan w bars i :
  (S i < w)%nat → (i < length bars)%nat →
  series_half (series_add (rolling_max w (numbers (highs bars)))
                          (rolling_min w (numbers (lows bars)))) !! i
  = Some None.
Proof.
  intros Hw Hi. unfold series_half, series_add, rolling_max, rolling_min.
  rewrite list_lookup_fmap, lookup_zip_with.
  rewrite !rolling_numbers_lookup
    by (unfold highs, lows; rewrite length_fmap; lia).
  by rewrite !decide_False by lia.
Qed.

(** X11. On a Price Series the conversion line is NaN on the first 8 rows
    and a number from row 8 on, the base line is NaN on the first 25 rows
    and a number from row 25 on; the rolling extremes they are built from
    are, from those rows on, the highest high and the lowest low of the 9
    (26) bars ending at the row. *)
Theorem conversion_and_base_line_warm_up (bars : list Bar) :
  ∃ df t k,
    add_ichimoku (frame_of bars) = Ok df
    ∧ getitem df "Tenkan" = Ok t ∧ getitem df "Kijun" = Ok k
    ∧ length t = length bars ∧ length k = length bars
    ∧ ∀ i, (i < length bars)%nat →
        ((i < 8)%nat → t !! i = Some None)
        ∧ ((8 ≤ i)%nat →
           defined_at t i
           ∧ ∃ hi lo,
               rolling_max 9 (numbers (highs bars)) !! i = Some (Some hi)
               ∧ rolling_min 9 (numbers (lows bars)) !! i = Some (Some lo)
               ∧ extremes_of_window 9 bars i hi lo)
        ∧ ((i < 25)%nat → k !! i = Some None)
        ∧ ((25 ≤ i)%nat →
           defined_at k i
           ∧ ∃ hi lo,
               rolling_max 26 (numbers (highs bars)) !! i = Some (Some hi)
               ∧ rolling_min 26 (numbers (lows bars)) !! i = Some (Some lo)
               ∧ extremes_of_window 26 bars i hi lo).
Proof.
  destruct (frame_of_columns bars) as (Hh & Hl & _).
  assert (length (numbers (highs bars)) = length bars
          ∧ length (numbers (lows bars)) = length bars) as [Lh Ll].
  { unfold numbers, highs, lows. by rewrite !length_fmap. }
  eexists _, (tenkan_of _ _), (kijun_of _ _).
  split; [by apply add_ichimoku_columns|].
  split; [unfold getitem; simpl; by simplify_map_eq|].
  split; [unfold getitem; simpl; by simplify_map_eq|].
  rewrite length_tenkan, length_kijun by lia.
  split_and!; [done..|]. intros i Hi. split_and!.
  - intros H. apply range_line_nan; lia.
  - intros H. split; [apply range_line_defined; lia|].
    apply rolling_extremes; lia.
  - intros H. apply range_line_nan; lia.
  - intros H. split; [apply range_line_defined; lia|].
    apply rolling_extremes; lia.
Qed.

Lemma conversion_and_base_line_warm_up_witness :
  ∃ df t,
    add_ichimoku (frame_of rising) = Ok df
    ∧ getitem df "Tenkan" = Ok t
    ∧ defined_at t 99
    ∧ ∃ hi lo,
        rolling_max 9 (numbers (highs rising)) !! 99%nat = Some (Some hi)
        ∧ rolling_min 9 (numbers (lows rising)) !! 99%nat = Some (Some lo)
        ∧ extremes_of_window 9 rising 99 hi lo.
Proof.
  destruct (conversion_and_base_line_warm_up rising)
    as (df & t & k & Hdf & Ht & _ & _ & _ & H).
  destruct (H 99%nat) as (_ & Hv & _); [vm_compute; lia|].
  destruct Hv as (Hd & Hx); [lia|].
  exists df, t. split_and!; assumption.
Defined.

Example conversion_line_of_the_rising_series :
  (df ← add_ichimoku (frame_of rising); t ← getitem df "Tenkan"; Ok (t !! 7%nat))
  = Ok (Some None)
  ∧ rolling_max 9 (numbers (highs rising)) !! 99%nat = Some (Some 2)
  ∧ rolling_min 9 (numbers (lows rising)) !! 99%nat = Some (Some 1).
Proof. split_and!; by_evaluation. Qed.

(** ** The oscillator stays within the range of the closes *)

Section Convex.

Variable al : Qc.
Hypothesis al_nonneg : 0 ≤ al.
Hypothesis al_le_1 : al ≤ 1.





End Convex.






(** ** The ticker universe *)

Lemma str_replace_inj old new s s' :
  lacks new s → lacks new s' →
  str_replace old new s = str_replace old new s' → s = s'.
Proof.
  revert s'. induction s as [|c s IH]; intros [|c' s'] Hs Hs' E;
    simpl in E; try done.
  injection E as Ec Es. f_equal.
  - assert (c ≠ new) as Hc by (intros ->; by apply (Hs 0%nat)).
    assert (c' ≠ new) as Hc' by (intros ->; by apply (Hs' 0%nat)).
    destruct (Ascii.eqb c old) eqn:E1, (Ascii.eqb c' old) eqn:E2;
      try congruence.
    apply Ascii.eqb_eq in E1, E2. congruence.
  - apply IH; [intros n; apply (Hs (S n))|intros n; apply (Hs' (S n))|done].
Qed.

(** X14. [get_sp500_tickers] keeps the number and the order of the
    symbols.  On symbols that contain no ['-'], normalization is
    one-to-one, so distinct symbols stay distinct tickers; with a ['-'] in
    a symbol that can fail ("BRK.B" and "BRK-B" give the same ticker). *)
Theorem tickers_of_hyphen_free_symbols_stay_distinct (symbols : list string)
    (Hfree : Forall (lacks "-"%char) symbols) :
  length (get_sp500_tickers symbols) = length symbols
  ∧ (∀ i, get_sp500_tickers symbols !! i = normalize <$> symbols !! i)
  ∧ (∀ s s', s ∈ symbols → s' ∈ symbols → normalize s = normalize s' → s = s')
  ∧ (NoDup symbols → NoDup (get_sp500_tickers symbols)).
Proof.
  unfold get_sp500_tickers.
  assert (∀ s s', s ∈ symbols → s' ∈ symbols →
            normalize s = normalize s' → s = s') as Hinj.
  { intros s s' Hs Hs'. rewrite Forall_forall in Hfree.
    apply str_replace_inj; by apply Hfree. }
  split_and!.
  - by rewrite length_fmap.
  - intros i. by rewrite list_lookup_fmap.
  - done.
  - intros Hnd. by apply NoDup_fmap_2_strong.
Qed.

Lemma tickers_of_hyphen_free_symbols_stay_distinct_witness :
  NoDup (get_sp500_tickers ["BRK.B"; "BF.B"; "AAPL"]).
Proof.
  apply (tickers_of_hyphen_free_symbols_stay_distinct ["BRK.B"; "BF.B"; "AAPL"]).
  - repeat constructor; intros n;
      do 5 (destruct n as [|n]; [discriminate|]); discriminate.
  - apply (bool_decide_unpack _). vm_compute. exact I.
Defined.

Example normalization_can_merge_symbols :
  get_sp500_tickers ["BRK.B"; "BRK-B"] = ["BRK-B"; "BRK-B"].
Proof. reflexivity. Qed.

(** ** The report of a scan *)

Lemma as_completed_subset {A} (order : list nat) (futures : list A) x :
  x ∈ as_completed order futures → x ∈ futures.
Proof.
  unfold as_completed. rewrite list_elem_of_omap.
  intros (i & _ & Hi). by eapply list_elem_of_lookup_2.
Qed.

(** X15. When no ticker of the universe passes the pipeline, in
    particular when the provider raises on every daily download (a full
    outage), the scan does not fail: it reports no ticker, the empty
    string, count 0 and the full universe length, whatever order the
    workers finish in. *)
Theorem scan_with_no_qualifying_ticker
    (fetch : string → string → string → result DataFrame)
    (symbols : list string) (order : list nat)
    (Hnone : ∀ t, t ∈ get_sp500_tickers symbols →
                  (∃ e, fetch t "3y" "1d" = Raise e)
                  ∨ (is_bullish fetch t []).1 = Ok false) :
  screen fetch symbols order = Ok (mkScan [] "" 0 (length symbols)).
Proof.
  assert (∀ t, t ∈ get_sp500_tickers symbols →
            future_result fetch t = Ok false) as Hfalse.
  { intros t Ht. destruct (Hnone t Ht) as [[e He]|H]; [|done].
    unfold future_result. rewrite is_bullish_run, He. done. }
  set (done := as_completed order
                 (submit_all fetch (get_sp500_tickers symbols))).
  assert (Forall (λ p, p.1 = Ok false) done) as Hall.
  { apply Forall_forall. intros [r t] Hin.
    apply as_completed_subset in Hin. unfold submit_all in Hin.
    apply list_elem_of_fmap in Hin as (t' & [= -> ->] & Ht'). simpl.
    by apply Hfalse. }
  assert (collect done [] = Ok []) as Hcollect.
  { rewrite collect_filter.
    - simpl. f_equal.
      induction Hall as [|[r t] l Hr _ IH]; [done|].
      simpl in Hr. rewrite filter_cons, decide_False; [done|].
      simpl. by rewrite Hr.
    - eapply Forall_impl; [exact Hall|]. intros [r t] Hr. by exists false. }
  unfold screen. fold done. rewrite Hcollect. simpl.
  unfold get_sp500_tickers. by rewrite length_fmap.
Qed.

Lemma scan_with_no_qualifying_ticker_witness :
  screen failing_fetch ["AAA"; "BRK.B"; "CCC"] [2; 0; 1]%nat
  = Ok (mkScan [] "" 0 3).
Proof.
  apply (scan_with_no_qualifying_ticker failing_fetch
           ["AAA"; "BRK.B"; "CCC"] [2; 0; 1]%nat).
  intros t _. left. exists (ProviderError "no data"). reflexivity.
Defined.

Lemma normalize_lacks_dot s : lacks "."%char (normalize s).
Proof.
  intros n. unfold normalize. rewrite str_replace_get.
  destruct (String.get n s) as [c|]; simpl; [|done].
  destruct (Ascii.eqb c ".") eqn:E; [done|]. intros [= ->]. done.
Qed.

(** X16. The report of a scan is consistent: the count is the length of
    the ticker list and never exceeds the number of tickers scanned, no
    reported ticker contains a ['.'], every reported ticker is a ticker of
    the universe, and the string form is the [", "]-joined list (the
    empty string for the empty list, so the guard on line 108 changes
    nothing). *)
Theorem scan_report_is_consistent
    (fetch : string → string → string → result DataFrame)
    (symbols : list string) (order : list nat)
    (Horder : order ≡ₚ seq 0 (length symbols)) :
  ∃ r,
    screen fetch symbols order = Ok r
    ∧ count r = length (bullish_stocks r)
    ∧ (count r ≤ total_scanned r)%nat
    ∧ Forall (lacks "."%char) (bullish_stocks r)
    ∧ bullish_stocks r ⊆ get_sp500_tickers symbols
    ∧ bullish_stocks_str r = String.concat ", " (bullish_stocks r).
Proof.
  destruct (collect_as_completed fetch (get_sp500_tickers symbols) order)
    as (found & Hc & Hf).
  { unfold get_sp500_tickers. by rewrite length_fmap. }
  eexists. split; [unfold screen; rewrite Hc; reflexivity|]. simpl.
  assert (merge_sort str_le found ⊆ get_sp500_tickers symbols) as Hsub.
  { intros t. rewrite merge_sort_Permutation, Hf, list_elem_of_filter.
    by intros [_ ?]. }
  split_and!.
  - done.
  - rewrite merge_sort_Permutation, Hf. apply length_filter.
  - apply Forall_forall. intros t Ht. apply Hsub in Ht.
    unfold get_sp500_tickers in Ht.
    apply list_elem_of_fmap in Ht as (s & -> & _). apply normalize_lacks_dot.
  - done.
  - by destruct (merge_sort str_le found).
Qed.

Lemma scan_report_is_consistent_witness :
  ∃ r,
    screen example_fetch ["BRK.B"; "AAA"] [1; 0]%nat = Ok r
    ∧ count r = length (bullish_stocks r)
    ∧ (count r ≤ total_scanned r)%nat
    ∧ Forall (lacks "."%char) (bullish_stocks r)
    ∧ bullish_stocks r ⊆ get_sp500_tickers ["BRK.B"; "AAA"]
    ∧ bullish_stocks_str r = String.concat ", " (bullish_stocks r).
Proof.
  apply (scan_report_is_consistent example_fetch ["BRK.B"; "AAA"] [1; 0]%nat).
  apply perm_swap.
Defined.

(** X17. During a scan the provider is only ever asked about normalized
    tickers: each task issues at least the daily download and at most
    three calls, every one of them for the task's own ticker, which
    contains no ['.']. *)
Theorem scan_queries_the_provider_with_normalized_tickers
    (fetch : string → string → string → result DataFrame)
    (symbols : list string) (t : string)
    (Ht : t ∈ get_sp500_tickers symbols) :
  let calls := (is_bullish fetch t []).2 in
  (1 ≤ length calls ≤ 3)%nat
  ∧ head calls = Some (daily_call t)
  ∧ Forall (λ c, c_ticker c = t ∧ lacks "."%char (c_ticker c)) calls.
Proof.
  assert (lacks "."%char t) as Hdot.
  { unfold get_sp500_tickers in Ht.
    apply list_elem_of_fmap in Ht as (s & -> & _). apply normalize_lacks_dot. }
  simpl. rewrite is_bullish_run.
  destruct (fetch t "3y" "1d") as [daily|e];
    [|simpl; split_and!; [lia..|done|by repeat constructor]].
  destruct (daily_stage daily) as [[]|e];
    [|simpl; split_and!; [lia..|done|by repeat constructor]..].
  destruct (fetch t "730d" "60m") as [hourly|e];
    [|simpl; split_and!; [lia..|done|by repeat constructor]].
  destruct (fetch t "7d" "1m") as [minute|e];
    [|simpl; split_and!; [lia..|done|by repeat constructor]].
  destruct (intraday_stage hourly minute);
    simpl; (split_and!; [lia..|done|by repeat constructor]).
Qed.

Lemma scan_queries_the_provider_with_normalized_tickers_witness :
  let calls := (is_bullish example_fetch "BRK-B" []).2 in
  (1 ≤ length calls ≤ 3)%nat
  ∧ head calls = Some (daily_call "BRK-B")
  ∧ Forall (λ c, c_ticker c = "BRK-B" ∧ lacks "."%char (c_ticker c)) calls.
Proof.
  apply (scan_queries_the_provider_with_normalized_tickers
           example_fetch ["AAA"; "BRK.B"] "BRK-B").
  apply (bool_decide_unpack _). vm_compute. exact I.
Defined.

(** ** The evaluator on a long Price Series *)

Lemma last_numbers_closes bars :
  last (numbers (closes bars)) = (Some ∘ Close) <$> last bars.
Proof.
  unfold numbers, closes. rewrite <- list_fmap_compose, fmap_last. done.
Qed.

Lemma latest_spans_are_numbers bars :
  (100 ≤ length bars)%nat →
  ∃ a b,
    last (senkou_a_of (numbers (highs bars)) (numbers (lows bars)))
    = Some (Some a)
    ∧ last (senkou_b_of (numbers (highs bars)) (numbers (lows bars)))
      = Some (Some b).
Proof.
  intros Hlen.
  assert (length (numbers (highs bars)) = length bars
          ∧ length (numbers (lows bars)) = length bars) as [Lh Ll].
  { unfold numbers, highs, lows. by rewrite !length_fmap. }
  destruct (proj2 (senkou_a_defined bars (length bars - 1))) as [a Ha]; [lia|].
  destruct (proj2 (senkou_b_defined bars (length bars - 1))) as [b Hb]; [lia|].
  exists a, b. rewrite !last_lookup, length_senkou_a, length_senkou_b by lia.
  rewrite Lh. replace (pred (length bars)) with (length bars - 1)%nat by lia.
  done.
Qed.

(** X21. On a Price Series of at least 100 bars both latest leading
    spans are numbers, so the two NaN exits of the evaluator are never
    taken and its answer is the plain comparison: true exactly when the
    latest close is strictly above the larger of the two latest spans. *)
Theorem evaluator_compares_on_long_price_series (bars : list Bar)
    (Hlen : (100 ≤ length bars)%nat) :
  ∃ df sa sb a b c,
    add_ichimoku (frame_of bars) = Ok df
    ∧ getitem df "Senkou_A" = Ok sa ∧ getitem df "Senkou_B" = Ok sb
    ∧ last sa = Some (Some a) ∧ last sb = Some (Some b)
    ∧ Close <$> last bars = Some c
    ∧ is_above_cloud (frame_of bars) = Ok (bool_decide (Qcmax a b < c)).
Proof.
  destruct (add_ichimoku_frame_of bars) as (df & Hdf & _ & Ga & Gb & _).
  destruct (latest_spans_are_numbers bars Hlen) as (a & b & Ha & Hb).
  destruct (frame_of_columns bars) as (Hh & Hl & Hc).
  destruct (last bars) as [bl|] eqn:Hlast; cycle 1.
  { apply last_None in Hlast. subst bars. simpl in Hlen. lia. }
  exists df, (senkou_a_of (numbers (highs bars)) (numbers (lows bars))),
    (senkou_b_of (numbers (highs bars)) (numbers (lows bars))), a, b,
    (Close bl).
  split_and!; try done.
  rewrite (is_above_cloud_cells (frame_of bars) _ _ _ (Some a) (Some b)
             (Some (Close bl)) Hh Hl Hc); try done.
  - simpl. by rewrite py_max_numbers.
  - by rewrite last_numbers_closes, Hlast.
Qed.

Lemma evaluator_compares_on_long_price_series_witness :
  ∃ df sa sb a b c,
    add_ichimoku (frame_of rising) = Ok df
    ∧ getitem df "Senkou_A" = Ok sa ∧ getitem df "Senkou_B" = Ok sb
    ∧ last sa = Some (Some a) ∧ last sb = Some (Some b)
    ∧ Close <$> last rising = Some c
    ∧ is_above_cloud (frame_of rising) = Ok (bool_decide (Qcmax a b < c)).
Proof.
  apply (evaluator_compares_on_long_price_series rising). vm_compute. lia.
Defined.

(** X22. Raising the latest close never loses the cloud position: if the
    evaluator answers true on a Price Series, it answers true on every
    series of the same length with the same highs and lows on the 52 rows
    that end 26 rows before the latest one and a latest close at least as
    high. *)
Theorem cloud_position_is_monotone_in_the_close (bars1 bars2 : list Bar)
    (c1 c2 : Qc)
    (Hlen : length bars1 = length bars2)
    (Hrows : ∀ j b1 b2,
        (length bars1 ≤ j + 78)%nat → (j + 27 ≤ length bars1)%nat →
        bars1 !! j = Some b1 → bars2 !! j = Some b2 →
        High b1 = High b2 ∧ Low b1 = Low b2)
    (Hc1 : Close <$> last bars1 = Some c1)
    (Hc2 : Close <$> last bars2 = Some c2)
    (Hle : c1 ≤ c2)
    (Habove : is_above_cloud (frame_of bars1) = Ok true) :
  is_above_cloud (frame_of bars2) = Ok true.
Proof.
  pose proof (is_above_cloud_true_long _ Habove) as Hlong.
  unfold len in Hlong. simpl in Hlong.
  destruct (latest_spans_are_numbers bars1 Hlong) as (a & b & Ha & Hb).
  destruct (latest_spans_are_numbers bars2) as (a' & b' & Ha' & Hb'); [lia|].
  destruct (frame_of_columns bars1) as (Hh1 & Hl1 & Hcl1).
  destruct (frame_of_columns bars2) as (Hh2 & Hl2 & Hcl2).
  assert (last (numbers (closes bars1)) = Some (Some c1)) as Lc1.
  { rewrite last_numbers_closes. destruct (last bars1); simpl in *; congruence. }
  assert (last (numbers (closes bars2)) = Some (Some c2)) as Lc2.
  { rewrite last_numbers_closes. destruct (last bars2); simpl in *; congruence. }
  rewrite (is_above_cloud_cells (frame_of bars1) _ _ _ _ _ _ Hh1 Hl1 Hcl1
             ltac:(unfold len; simpl; lia) Ha Hb Lc1) in Habove.
  rewrite (is_above_cloud_cells (frame_of bars2) _ _ _ _ _ _ Hh2 Hl2 Hcl2
             ltac:(unfold len; simpl; lia) Ha' Hb' Lc2).
  simpl in *. rewrite py_max_numbers in *.
  (* the spans under the latest bar are the same in both series *)
  set (n := length bars1) in *.
  assert (∀ j, (n - 27 - 51 ≤ j ≤ n - 27)%nat →
            numbers (highs bars1) !! j = numbers (highs bars2) !! j
            ∧ numbers (lows bars1) !! j = numbers (lows bars2) !! j) as Hcols.
  { intros j Hj. unfold numbers, highs, lows. rewrite !list_lookup_fmap.
    destruct (lookup_lt_is_Some_2 bars1 j) as [b1 Hb1]; [lia|].
    destruct (lookup_lt_is_Some_2 bars2 j) as [b2 Hb2]; [lia|].
    rewrite Hb1, Hb2. simpl.
    destruct (Hrows j b1 b2) as [-> ->]; try done; lia. }
  destruct (cloud_cells_local _ _ _ _ (n - 27) Hcols) as [Ea Eb].
  assert (length (numbers (highs bars1)) = n
          ∧ length (numbers (lows bars1)) = n
          ∧ length (numbers (highs bars2)) = n
          ∧ length (numbers (lows bars2)) = n) as (Lh1 & Ll1 & Lh2 & Ll2).
  { unfold numbers, highs, lows. rewrite !length_fmap. lia. }
  assert (a' = a) as ->.
  { rewrite last_lookup, length_senkou_a in Ha, Ha' by lia.
    rewrite Lh1 in Ha. rewrite Lh2 in Ha'. unfold senkou_a_of in Ha, Ha'.
    rewrite shift_lookup in Ha, Ha'.
    rewrite !length_series_half, !length_series_add, !length_tenkan,
      !length_kijun in Ha, Ha' by lia.
    rewrite Lh1 in Ha. rewrite Lh2 in Ha'.
    rewrite decide_True, decide_False in Ha, Ha' by lia.
    replace (pred n - 26)%nat with (n - 27)%nat in Ha, Ha' by lia.
    congruence. }
  assert (b' = b) as ->.
  { rewrite last_lookup, length_senkou_b in Hb, Hb' by lia.
    rewrite Lh1 in Hb. rewrite Lh2 in Hb'. unfold senkou_b_of in Hb, Hb'.
    rewrite shift_lookup in Hb, Hb'.
    unfold rolling_max, rolling_min in Hb, Hb'.
    rewrite !length_series_half, !length_series_add, !length_rolling
      in Hb, Hb'.
    rewrite Lh1, Ll1 in Hb. rewrite Lh2, Ll2 in Hb'.
    rewrite decide_True, decide_False in Hb, Hb' by lia.
    replace (pred n - 26)%nat with (n - 27)%nat in Hb, Hb' by lia.
    unfold rolling_max, rolling_min in Eb. congruence. }
  injection Habove as Habove. apply bool_decide_eq_true in Habove.
  f_equal. apply bool_decide_eq_true. by eapply Qclt_le_trans.
Qed.

Lemma cloud_position_is_monotone_in_the_close_witness :
  is_above_cloud (frame_of (flat 99 1 1 1 ++ [mkBar 1 1 (1 + 2)])) = Ok true.
Proof.
  apply (cloud_position_is_monotone_in_the_close rising
           (flat 99 1 1 1 ++ [mkBar 1 1 (1 + 2)]) 2 (1 + 2)).
  - reflexivity.
  - intros j b1 b2 H1 H2 Hb1 Hb2.
    assert (j < 99)%nat as Hj.
    { match type of H2 with
      | (_ ≤ ?x)%nat => replace x with 100%nat in H2 by reflexivity
      end. lia. }
    unfold rising in Hb1.
    rewrite lookup_app_l in Hb1 by (unfold flat; rewrite length_replicate; lia).
    rewrite lookup_app_l in Hb2 by (unfold flat; rewrite length_replicate; lia).
    unfold flat in *. apply lookup_replicate in Hb1 as [-> _].
    apply lookup_replicate in Hb2 as [-> _]. split; reflexivity.
  - reflexivity.
  - reflexivity.
  - by apply (bool_decide_unpack _).
  - vm_compute. reflexivity.
Defined.

(** ** The cross is a one-bar event *)

(** X23. The momentum cross never fires after two consecutive bars of a
    Price Series: firing after bar [n] leaves the oscillator above its
    signal on that bar, which rules out firing after bar [n + 1]. *)
Theorem cross_never_fires_on_consecutive_bars (bars : list Bar) (n : nat)
    (Hn : (n < length bars)%nat) (Hfires : fires bars n) :
  ¬ fires bars (S n).
Proof.
  intros Hnext.
  apply fires_iff in Hfires
    as (H2 & m2 & s2 & m1 & s1 & _ & _ & Hm1 & Hs1 & _ & Hlt); [|lia].
  apply fires_iff in Hnext
    as (_ & m2' & s2' & _ & _ & Hm2' & Hs2' & _ & _ & Hle & _); [|lia].
  replace (S n - 2)%nat with (n - 1)%nat in Hm2', Hs2' by lia.
  simplify_eq. by apply (Qclt_not_le _ _ Hlt).
Qed.

Lemma cross_never_fires_on_consecutive_bars_witness :
  ¬ fires ramp_closes 4.
Proof.
  apply (cross_never_fires_on_consecutive_bars ramp_closes 3).
  - vm_compute. lia.
  - unfold fires. vm_compute. reflexivity.
Defined.
